(** * QuillEmbedModule: the placeholder lifecycle of the rich editor

    A shallow embedding of
    [plugins/rich-editor/src/scripts/QuillEmbedModule.js]: the registry
    [currentUploads] that correlates in-flight scrapes and uploads with
    the loading blots standing for them in the document, the handlers
    that create and resolve those blots, and the promise continuations of
    [scrapeMedia].  The upload-failure handler of the module's earlier
    revision, [onImageUploadFailure], is embedded next to its successor
    [createErrorEmbed]. *)

From Stdlib Require Import String List Arith Lia.
From stdpp Require Import base decidable countable gmap strings list.
Import ListNotations.

Open Scope string_scope.
Open Scope list_scope.
Open Scope nat_scope.

(** ** Lookup keys

    The keys of the [Map]: the scraped URL (a string, compared by value),
    the uploaded [File] (an object, compared by identity, here its
    address), or one of the two nullish values that [lookupKey == null]
    recognises. *)

Inductive LookupKey : Type :=
| KNull
| KUndefined
| KUrl (url : string)
| KFile (file : nat).

#[global] Instance LookupKey_eq_dec : EqDecision LookupKey.
Proof. solve_decision. Defined.

Definition LookupKey_encode (k : LookupKey) : bool + (string + nat) :=
  match k with
  | KNull => inl false
  | KUndefined => inl true
  | KUrl u => inr (inl u)
  | KFile f => inr (inr f)
  end.

Definition LookupKey_decode (x : bool + (string + nat)) : LookupKey :=
  match x with
  | inl false => KNull
  | inl true => KUndefined
  | inr (inl u) => KUrl u
  | inr (inr f) => KFile f
  end.

#[global] Instance LookupKey_countable : Countable LookupKey.
Proof.
  refine (inj_countable' LookupKey_encode LookupKey_decode _).
  intros []; reflexivity.
Defined.

(** [lookupKey == null] *)
Definition isNullish (k : LookupKey) : bool :=
  match k with
  | KNull | KUndefined => true
  | _ => false
  end.

(** ** Values exchanged with the collaborators *)

(** The [ScrapeResult] typedef. *)
Record ScrapeResult : Type := {
  attributes : list string;
  type : string;
  url : string;
  body : string;
  name : string;
  photoUrl : string;
  height : nat;
  width : nat
}.

(** What a handler receives as [error]: an [Error] with its [message],
    and, for a rejected request, the optional chain
    [error.response.data.message]. *)
Record ErrorData : Type := { data_message : option string }.
Record ErrorResponse : Type := { response_data : option ErrorData }.
Record Error : Type := {
  message : string;
  response : option ErrorResponse
}.

(** [new Error(msg)] *)
Definition new_Error (msg : string) : Error :=
  {| message := msg; response := None |}.

(** The response of a finished upload, read as [response.data.url]. *)
Record UploadResponse : Type := { upload_url : string }.

(** Modelled from the spec: [t] of [@core/utility], the translation
    lookup, whose source is not available; localization belongs to a
    collaborator and the messages are the literals themselves. *)
Definition t (s : string) : string := s.

(** ** Blots *)

Inductive blotValue : Type :=
| EmbedLoading
| EmbedLink (link_url link_name linkImage excerpt : string)
| EmbedImage (image_url : string) (alt : option string)
| EmbedVideo (scrapeResult : ScrapeResult)
| EmbedError (errors : list Error).

(** Modelled from the spec: the callback slot of [EmbedLoadingBlot]
    ([./blots/EmbedLoadingBlot], source not available): the placeholder
    owns an optional callback, run when the node is removed from the
    document before it is resolved.  The closure handed to
    [registerDeleteCallback] captures nothing but [lookupKey], which is
    what [deleteCallback] stores.  A blot is an object: [blot_id] is its
    identity. *)
Record blot : Type := {
  blot_id : nat;
  blot_value : blotValue;
  deleteCallback : option LookupKey
}.

Definition isLoading (b : blot) : bool :=
  match blot_value b with
  | EmbedLoading => true
  | _ => false
  end.

Record RangeStatic : Type := { index : nat; length_ : nat }.

(** ** The module instance together with the editor it drives *)

Record QuillEmbedModule : Type := {
  document : list blot;                 (* the leaves of [quill.scroll], one index each *)
  selection : option RangeStatic;       (* [quill.getSelection()] *)
  nextBlot : nat;                       (* identity of the next blot created *)
  currentUploads : gmap LookupKey nat;  (* key -> identity of its loading blot *)
  lastSelection : RangeStatic;
  pauseSelectionTracking : bool;
  errorLog : list string                (* what [logError] has written *)
}.

Definition initial : QuillEmbedModule :=
  {| document := [];
     selection := None;
     nextBlot := 0;
     currentUploads := ∅;
     lastSelection := {| index := 0; length_ := 0 |};
     pauseSelectionTracking := false;
     errorLog := [] |}.

Definition with_document (d : list blot) (s : QuillEmbedModule) :=
  {| document := d; selection := selection s; nextBlot := nextBlot s;
     currentUploads := currentUploads s; lastSelection := lastSelection s;
     pauseSelectionTracking := pauseSelectionTracking s;
     errorLog := errorLog s |}.

Definition with_selection (r : option RangeStatic) (s : QuillEmbedModule) :=
  {| document := document s; selection := r; nextBlot := nextBlot s;
     currentUploads := currentUploads s; lastSelection := lastSelection s;
     pauseSelectionTracking := pauseSelectionTracking s;
     errorLog := errorLog s |}.

Definition with_nextBlot (n : nat) (s : QuillEmbedModule) :=
  {| document := document s; selection := selection s; nextBlot := n;
     currentUploads := currentUploads s; lastSelection := lastSelection s;
     pauseSelectionTracking := pauseSelectionTracking s;
     errorLog := errorLog s |}.

Definition with_currentUploads (m : gmap LookupKey nat) (s : QuillEmbedModule) :=
  {| document := document s; selection := selection s; nextBlot := nextBlot s;
     currentUploads := m; lastSelection := lastSelection s;
     pauseSelectionTracking := pauseSelectionTracking s;
     errorLog := errorLog s |}.

Definition with_lastSelection (r : RangeStatic) (s : QuillEmbedModule) :=
  {| document := document s; selection := selection s; nextBlot := nextBlot s;
     currentUploads := currentUploads s; lastSelection := r;
     pauseSelectionTracking := pauseSelectionTracking s;
     errorLog := errorLog s |}.

Definition with_pauseSelectionTracking (p : bool) (s : QuillEmbedModule) :=
  {| document := document s; selection := selection s; nextBlot := nextBlot s;
     currentUploads := currentUploads s; lastSelection := lastSelection s;
     pauseSelectionTracking := p;
     errorLog := errorLog s |}.

Definition with_errorLog (l : list string) (s : QuillEmbedModule) :=
  {| document := document s; selection := selection s; nextBlot := nextBlot s;
     currentUploads := currentUploads s; lastSelection := lastSelection s;
     pauseSelectionTracking := pauseSelectionTracking s;
     errorLog := l |}.

(** ** Handlers: state passing with exceptions

    A handler runs to completion on the UI loop; it either returns or
    throws, and what it wrote to the module and the document before
    throwing stays written. *)

Inductive completion (A : Type) : Type :=
| Normal (a : A)
| Throw (e : Error).
Arguments Normal {A} a.
Arguments Throw {A} e.

Definition Eff (A : Type) : Type :=
  QuillEmbedModule -> completion A * QuillEmbedModule.

Definition ret {A} (a : A) : Eff A := fun s => (Normal a, s).

Definition bind {A B} (c : Eff A) (k : A -> Eff B) : Eff B :=
  fun s =>
    match c s with
    | (Normal a, s') => k a s'
    | (Throw e, s') => (Throw e, s')
    end.

Definition throw {A} (e : Error) : Eff A := fun s => (Throw e, s).

Definition get {A} (f : QuillEmbedModule -> A) : Eff A := fun s => (Normal (f s), s).

Definition modify (f : QuillEmbedModule -> QuillEmbedModule) : Eff unit :=
  fun s => (Normal tt, f s).

Notation "x <- c ;; k" := (bind c (fun x => k))
  (at level 100, c at next level, right associativity).
Notation "c ;;; k" := (bind c (fun _ => k))
  (at level 100, right associativity).

(** Calling a method on [null] or [undefined]. *)
Definition TypeError : Error :=
  new_Error "Cannot read properties of undefined".

(** ** The collaborators: Quill, Parchment, the logger

    The document is the sequence of leaves of [quill.scroll]; an embed
    occupies one index.  [quill.insertEmbed] past the end appends, and
    every change made with the [USER] source is announced to the
    listener installed by [setupSelectionListener]. *)

Definition logError (msg : string) : Eff unit :=
  modify (fun s => with_errorLog (errorLog s ++ [msg]) s).

(** The second argument the listener is called with: nothing, a range
    (it has a numeric [index]), or a delta (it has none). *)
Inductive changeArg : Type :=
| ArgNull
| ArgRange (r : RangeStatic)
| ArgDelta.

Definition quill_getSelection : Eff (option RangeStatic) := get selection.

Definition handleEditorChange (type : string) (range : changeArg) : Eff unit :=
  paused <- get pauseSelectionTracking ;;
  match range with
  | ArgNull => ret tt
  | _ =>
    if paused then ret tt
    else
      range' <- match range with
                | ArgRange r => ret (Some r)
                | _ => quill_getSelection
                end ;;
      match range' with
      | Some r => modify (with_lastSelection r)
      | None => ret tt
      end
  end.

(** [Parchment.create(name, value)]: a new, detached blot. *)
Definition Parchment_create (v : blotValue) : Eff blot :=
  fun s =>
    (Normal {| blot_id := nextBlot s; blot_value := v; deleteCallback := None |},
     with_nextBlot (S (nextBlot s)) s).

Definition insertAt {A} (i : nat) (x : A) (l : list A) : list A :=
  take i l ++ x :: drop i l.

Definition quill_insertEmbed (idx : nat) (v : blotValue) : Eff unit :=
  b <- Parchment_create v ;;
  modify (fun s => with_document (insertAt idx b (document s)) s) ;;;
  handleEditorChange "text-change" ArgDelta.

Definition quill_setSelection (idx : nat) : Eff unit :=
  let r := {| index := idx; length_ := 0 |} in
  modify (with_selection (Some r)) ;;;
  handleEditorChange "selection-change" (ArgRange r).

(** [quill.scroll.descendant(EmbedLoadingBlot, idx)]: the loading blot at
    that index, if there is one. *)
Definition scroll_descendant_EmbedLoadingBlot (idx : nat) : Eff (option nat) :=
  d <- get document ;;
  ret (match d !! idx with
       | Some b => if isLoading b then Some (blot_id b) else None
       | None => None
       end).

Definition hasId (id : nat) (b : blot) : bool := blot_id b =? id.

Fixpoint replaceBlot (target : nat) (replacement : blot) (d : list blot) : list blot :=
  match d with
  | [] => []
  | b :: d' =>
    if hasId target b then replacement :: d'
    else b :: replaceBlot target replacement d'
  end.

(** [target.replaceWith(replacement)]; nothing happens when [target] has
    no parent, that is, is not in the document. *)
Definition replaceWith (target : nat) (replacement : blot) : Eff unit :=
  modify (fun s => with_document (replaceBlot target replacement (document s)) s).

Fixpoint armBlot (target : nat) (k : LookupKey) (d : list blot) : list blot :=
  match d with
  | [] => []
  | b :: d' =>
    if hasId target b
    then {| blot_id := blot_id b; blot_value := blot_value b;
            deleteCallback := Some k |} :: d'
    else b :: armBlot target k d'
  end.

(** Modelled from the spec: [registerDeleteCallback] of
    [EmbedLoadingBlot] stores the callback on the placeholder. *)
Definition registerDeleteCallback (target : nat) (k : LookupKey) : Eff unit :=
  modify (fun s => with_document (armBlot target k (document s)) s).

(** The [Map] operations on [currentUploads]. *)
Definition currentUploads_get (k : LookupKey) : Eff (option nat) :=
  get (fun s => currentUploads s !! k).

Definition currentUploads_has (k : LookupKey) : Eff bool :=
  get (fun s => bool_decide (is_Some (currentUploads s !! k))).

Definition currentUploads_set (k : LookupKey) (b : nat) : Eff unit :=
  modify (fun s => with_currentUploads (<[k := b]> (currentUploads s)) s).

Definition currentUploads_delete (k : LookupKey) : Eff unit :=
  modify (fun s => with_currentUploads (delete k (currentUploads s)) s).

(** ** The handlers of [QuillEmbedModule] *)

(** The closure registered by [createLoadingEmbed] on its blot. *)
Definition deleteCallback_run (lookupKey : LookupKey) : Eff unit :=
  present <- currentUploads_has lookupKey ;;
  if present then currentUploads_delete lookupKey else ret tt.

Definition createLoadingEmbed (lookupKey : LookupKey) : Eff unit :=
  modify (with_pauseSelectionTracking true) ;;;
  i <- get (fun s => index (lastSelection s)) ;;
  quill_insertEmbed i EmbedLoading ;;;
  i <- get (fun s => index (lastSelection s)) ;;
  found <- scroll_descendant_EmbedLoadingBlot i ;;
  i <- get (fun s => index (lastSelection s)) ;;
  quill_setSelection (i + 1) ;;;
  match found with
  | None => throw TypeError
  | Some blot =>
    registerDeleteCallback blot lookupKey ;;;
    currentUploads_set lookupKey blot ;;;
    modify (with_pauseSelectionTracking false)
  end.

Definition createErrorEmbed (lookupKey : LookupKey) (error : Error) : Eff unit :=
  logError (message error) ;;;
  if isNullish lookupKey then
    i <- get (fun s => index (lastSelection s)) ;;
    quill_insertEmbed i (EmbedError [error])
  else
    errorBlot <- Parchment_create (EmbedError [error]) ;;
    loadingBlot <- currentUploads_get lookupKey ;;
    match loadingBlot with
    | Some b => replaceWith b errorBlot
    | None => ret tt
    end ;;;
    currentUploads_delete lookupKey.

Definition createVideoEmbed (scrapeResult : ScrapeResult) : Eff unit :=
  linkEmbed <- Parchment_create (EmbedVideo scrapeResult) ;;
  completedBlot <- currentUploads_get (KUrl (url scrapeResult)) ;;
  match completedBlot with
  | Some b => replaceWith b linkEmbed
  | None => ret tt
  end ;;;
  currentUploads_delete (KUrl (url scrapeResult)).

Definition createSiteEmbed (scrapeResult : ScrapeResult) : Eff unit :=
  linkEmbed <- Parchment_create
                 (EmbedLink (url scrapeResult) (name scrapeResult)
                            (photoUrl scrapeResult) (body scrapeResult)) ;;
  completedBlot <- currentUploads_get (KUrl (url scrapeResult)) ;;
  match completedBlot with
  | Some b => replaceWith b linkEmbed
  | None => ret tt
  end ;;;
  currentUploads_delete (KUrl (url scrapeResult)).

Definition createExternalImageEmbed (scrapeResult : ScrapeResult) : Eff unit :=
  linkEmbed <- Parchment_create
                 (EmbedImage (photoUrl scrapeResult) (Some (name scrapeResult))) ;;
  completedBlot <- currentUploads_get (KUrl (url scrapeResult)) ;;
  match completedBlot with
  | Some b => replaceWith b linkEmbed
  | None => ret tt
  end ;;;
  currentUploads_delete (KUrl (url scrapeResult)).

Definition onImageUploadSuccess (file : LookupKey) (response : UploadResponse) : Eff unit :=
  imageEmbed <- Parchment_create (EmbedImage (upload_url response) None) ;;
  completedBlot <- currentUploads_get file ;;
  match completedBlot with
  | Some b => replaceWith b imageEmbed
  | None => ret tt
  end ;;;
  currentUploads_delete file.

(** [scrapeMedia] up to the point where the request is sent. *)
Definition scrapeMedia (u : string) : Eff unit :=
  createLoadingEmbed (KUrl u).

(** The continuation passed to [then]. *)
Definition scrapeMedia_then (u : string) (result : ScrapeResult) : Eff unit :=
  if String.eqb (type result) "site" then createSiteEmbed result
  else if String.eqb (type result) "image" then createExternalImageEmbed result
  else createErrorEmbed (KUrl u)
         (new_Error (t "That type of embed is not currently supported.")).

(** The continuation passed to [catch]. *)
Definition scrapeMedia_catch (u : string) (error : Error) : Eff unit :=
  match response error with
  | Some {| response_data := Some {| data_message := Some msg |} |} =>
    if String.eqb msg "" then createErrorEmbed (KUrl u) error
    else if String.prefix "Failed to load URL" msg
    then createErrorEmbed (KUrl u)
           (new_Error (t "There was an error processing that embed link."))
    else createErrorEmbed (KUrl u) (new_Error msg)
  | _ => createErrorEmbed (KUrl u) error
  end.

(** How the request of [scrapeMedia u] settles. *)
Inductive settlement : Type :=
| Fulfilled (result : ScrapeResult)
| Rejected (error : Error).

(** [promise.then(f).catch(g)]: [g] also receives what [f] throws. *)
Definition scrapeMedia_settled (u : string) (r : settlement) : Eff unit :=
  match r with
  | Fulfilled result =>
    fun s =>
      match scrapeMedia_then u result s with
      | (Normal v, s') => (Normal v, s')
      | (Throw e, s') => scrapeMedia_catch u e s'
      end
  | Rejected error => scrapeMedia_catch u error
  end.

(** The upload-failure handler of the earlier revision of the module,
    which [createErrorEmbed] replaced. *)
Definition onImageUploadFailure (file : LookupKey) (error : Error) : Eff unit :=
  logError (message error) ;;;
  if isNullish file then
    i <- get (fun s => index (lastSelection s)) ;;
    quill_insertEmbed i (EmbedError [error])
  else
    errorBlot <- Parchment_create (EmbedError [error]) ;;
    loadingBlot <- currentUploads_get file ;;
    match loadingBlot with
    | Some b => replaceWith b errorBlot
    | None => ret tt
    end ;;;
    match loadingBlot with
    | Some b => replaceWith b errorBlot
    | None => throw TypeError
    end ;;;
    currentUploads_delete file.

(** The continuation the earlier revision of [scrapeMedia] passes to
    [then]: whatever is neither a ["site"] nor an ["image"] is taken for
    a video. *)
Module Earlier.
Definition scrapeMedia_then (result : ScrapeResult) : Eff unit :=
  if String.eqb (type result) "site" then createSiteEmbed result
  else if String.eqb (type result) "image" then createExternalImageEmbed result
  else createVideoEmbed result.
End Earlier.

(** ** What happens to the editor from outside *)

Fixpoint removeBlot (target : nat) (d : list blot) : list blot :=
  match d with
  | [] => []
  | b :: d' => if hasId target b then d' else b :: removeBlot target d'
  end.

(** Modelled from the spec: the document engine removing a node (undo,
    or the user deleting it) runs the node's deletion callback; a
    replacement does not.  The change is then announced to the
    listener. *)
Definition quill_remove (target : nat) : Eff unit :=
  d <- get document ;;
  match find (hasId target) d with
  | None => ret tt
  | Some b =>
    modify (with_document (removeBlot target d)) ;;;
    match deleteCallback b with
    | Some k => deleteCallback_run k
    | None => ret tt
    end ;;;
    handleEditorChange "text-change" ArgDelta
  end.

(** The user moving the caret, or the editor losing focus ([None]). *)
Definition quill_select (r : option RangeStatic) : Eff unit :=
  modify (with_selection r) ;;;
  handleEditorChange "selection-change"
    (match r with Some r' => ArgRange r' | None => ArgNull end).

(** One turn of the UI loop.  The upload callbacks are the three
    handlers handed to [FileUploader] by [setupImageUploads]. *)
Inductive event : Type :=
| Scrape (u : string)
| Settled (u : string) (r : settlement)
| UploadStart (file : LookupKey)
| UploadSuccess (file : LookupKey) (response : UploadResponse)
| UploadFailure (file : LookupKey) (error : Error)
| Removed (target : nat)
| Selected (r : option RangeStatic).

Definition handle (e : event) : Eff unit :=
  match e with
  | Scrape u => scrapeMedia u
  | Settled u r => scrapeMedia_settled u r
  | UploadStart file => createLoadingEmbed file
  | UploadSuccess file response => onImageUploadSuccess file response
  | UploadFailure file error => createErrorEmbed file error
  | Removed target => quill_remove target
  | Selected r => quill_select r
  end.

(** An exception escaping a handler ends that turn only. *)
Definition step (e : event) (s : QuillEmbedModule) : QuillEmbedModule :=
  snd (handle e s).

Fixpoint run (es : list event) (s : QuillEmbedModule) : QuillEmbedModule :=
  match es with
  | [] => s
  | e :: es' => run es' (step e s)
  end.

(** ** Vocabulary of the statements *)

(** The caret recorded in [lastSelection] is a position of the document. *)
Definition validSelection (s : QuillEmbedModule) : Prop :=
  index (lastSelection s) <= length (document s).

(** A state the editor can be in: some sequence of turns from the
    freshly constructed module. *)
Definition reachable (s : QuillEmbedModule) : Prop :=
  exists es, s = run es initial.

(** The blot [Parchment.create] returns in state [s]. *)
Definition created (v : blotValue) (s : QuillEmbedModule) : blot :=
  {| blot_id := nextBlot s; blot_value := v; deleteCallback := None |}.

(** A loading blot whose deletion hook was armed under [k]. *)
Definition placeholder (id : nat) (k : LookupKey) : blot :=
  {| blot_id := id; blot_value := EmbedLoading; deleteCallback := Some k |}.

(** What the five resolving handlers have in common: build the result
    node, swap it for the blot registered under [k] if there is one,
    drop the entry. *)
Definition resolved (k : LookupKey) (v : blotValue) (s : QuillEmbedModule)
  : QuillEmbedModule :=
  {| document := match currentUploads s !! k with
                 | Some b => replaceBlot b (created v s) (document s)
                 | None => document s
                 end;
     selection := selection s;
     nextBlot := S (nextBlot s);
     currentUploads := delete k (currentUploads s);
     lastSelection := lastSelection s;
     pauseSelectionTracking := pauseSelectionTracking s;
     errorLog := errorLog s |}.

(** Unfolds a handler down to the state it computes. *)
Ltac run_handler :=
  unfold createErrorEmbed, createSiteEmbed, createExternalImageEmbed,
    createVideoEmbed, onImageUploadSuccess, onImageUploadFailure,
    deleteCallback_run, quill_insertEmbed, Parchment_create, replaceWith,
    handleEditorChange, quill_getSelection, logError,
    currentUploads_get, currentUploads_has, currentUploads_delete,
    currentUploads_set, resolved, created, bind, modify, get, ret, throw;
  cbn.

(** What every reachable state satisfies: blot identities are unique and
    were all handed out already, and every registry entry points at a
    loading blot of the document that was armed under the entry's key. *)
Record wellFormed (s : QuillEmbedModule) : Prop := {
  wf_fresh : forall b, b ∈ document s -> blot_id b < nextBlot s;
  wf_unique : NoDup (blot_id <$> document s);
  wf_registered :
    forall k id, currentUploads s !! k = Some id -> placeholder id k ∈ document s
}.

(** Two states with the same document, registry and blot counter. *)
Definition sameContent (s s' : QuillEmbedModule) : Prop :=
  document s' = document s /\ nextBlot s' = nextBlot s /\
  currentUploads s' = currentUploads s.

(** The message [scrapeMedia]'s [catch] continuation reports for [error]. *)
Definition reported (error : Error) : Error :=
  match response error with
  | Some {| response_data := Some {| data_message := Some msg |} |} =>
    if String.eqb msg "" then error
    else if String.prefix "Failed to load URL" msg
    then new_Error "There was an error processing that embed link."
    else new_Error msg
  | _ => error
  end.

(** [resolves k v s c]: the handler whose outcome from [s] is [c]
    returned, built exactly one node, of value [v], and resolved [k]
    with it.  If [k] had an entry, the placeholder it pointed at is
    replaced in place by that node; if not, the document is as before.
    Either way the entry is gone. *)
Definition resolves (k : LookupKey) (v : blotValue) (s : QuillEmbedModule)
  (c : completion unit * QuillEmbedModule) : Prop :=
  fst c = Normal tt /\
  nextBlot (snd c) = S (nextBlot s) /\
  currentUploads (snd c) = delete k (currentUploads s) /\
  match currentUploads s !! k with
  | Some id =>
    exists d1 d2,
      document s = d1 ++ placeholder id k :: d2 /\
      document (snd c) = d1 ++ created v s :: d2
  | None => document (snd c) = document s
  end.

(** A rejection whose payload carries [response.data.message = msg]. *)
Definition rejection (own_message msg : string) : Error :=
  {| message := own_message;
     response := Some {| response_data := Some {| data_message := Some msg |} |} |}.

(** What the user is shown for a server message. *)
Definition shown (msg : string) : string :=
  if String.prefix "Failed to load URL" msg
  then "There was an error processing that embed link."
  else msg.

(** The handler outcome [c] left the document, the registry and the log
    of [s] as they were, and returned. *)
Definition silentNoOp (s : QuillEmbedModule)
  (c : completion unit * QuillEmbedModule) : Prop :=
  fst c = Normal tt /\
  document (snd c) = document s /\
  currentUploads (snd c) = currentUploads s /\
  errorLog (snd c) = errorLog s.

(** A response reporting another [url] than the one that was submitted. *)
Definition redirected : ScrapeResult :=
  {| attributes := []; type := "site"; url := "http://a.test/";
     body := "Excerpt"; name := "A"; photoUrl := "http://a.test/a.png";
     height := 0; width := 0 |}.

(** A placeholder no registry entry leads to. *)
Definition orphaned (f : nat) (k : LookupKey) (s : QuillEmbedModule) : Prop :=
  placeholder f k ∈ document s /\
  f < nextBlot s /\
  forall k', currentUploads s !! k' <> Some f.

(** The state after [createLoadingEmbed k] ran twice in a row. *)
Definition submittedTwice (k : LookupKey) (s : QuillEmbedModule) : QuillEmbedModule :=
  snd (createLoadingEmbed k (snd (createLoadingEmbed k s))).

(** Some blot of the document is armed under [k]. *)
Definition live (k : LookupKey) (s : QuillEmbedModule) : bool :=
  existsb (fun b => bool_decide (deleteCallback b = Some k)) (document s).

(** The key a turn creates a placeholder under. *)
Definition submits (e : event) : option LookupKey :=
  match e with
  | Scrape u => Some (KUrl u)
  | UploadStart file => Some file
  | _ => None
  end.

(** No placeholder is created under a key while a placeholder armed
    under that key is in the document. *)
Fixpoint noDuplicateSubmission (es : list event) (s : QuillEmbedModule) : bool :=
  match es with
  | [] => true
  | e :: es' =>
    match submits e with
    | Some k => negb (live k s)
    | None => true
    end && noDuplicateSubmission es' (step e s)
  end.

(** Every armed blot of the document is the one registered under the
    key it was armed with. *)
Definition armedRegistered (s : QuillEmbedModule) : Prop :=
  forall b k, b ∈ document s -> deleteCallback b = Some k ->
              currentUploads s !! k = Some (blot_id b).

(** The invariant as the specification words it: a key has an entry
    exactly when a placeholder armed under it is in the document. *)
Definition presentIffLive (s : QuillEmbedModule) : Prop :=
  forall k, is_Some (currentUploads s !! k) <->
            exists id, placeholder id k ∈ document s.

(** Sample responses and states. *)
Definition sitePage : ScrapeResult :=
  {| attributes := []; type := "site"; url := "http://a.test";
     body := "Excerpt"; name := "A"; photoUrl := "http://a.test/a.png";
     height := 0; width := 0 |}.

Definition picture : ScrapeResult :=
  {| attributes := []; type := "image"; url := "http://a.test";
     body := ""; name := "A picture"; photoUrl := "http://cdn.test/a.png";
     height := 600; width := 800 |}.

Definition unknownKind : ScrapeResult :=
  {| attributes := []; type := "unknown"; url := "http://a.test";
     body := ""; name := ""; photoUrl := ""; height := 0; width := 0 |}.

(** One scrape in flight. *)
Definition scraping : QuillEmbedModule := run [Scrape "http://a.test"] initial.

(** An upload whose placeholder was removed before it settled. *)
Definition uploadUndone : QuillEmbedModule :=
  run [UploadStart (KFile 7); Removed 0] initial.

(** Two scrapes and an upload, each under a key of its own. *)
Definition distinctKeys : list event :=
  [Scrape "http://a.test"; Scrape "http://b.test"; UploadStart (KFile 7);
   Settled "http://a.test" (Fulfilled sitePage); Removed 1].

(** ** Vocabulary of the further statements *)

(** The key a turn resolves, when it is a resolution: for a fulfilled
    scrape of type ["site"] or ["image"] that is the [url] of the
    response, not the URL submitted. *)
Definition resolutionKey (e : event) : option LookupKey :=
  match e with
  | Settled u (Fulfilled r) =>
    if String.eqb (type r) "site" || String.eqb (type r) "image"
    then Some (KUrl (url r))
    else Some (KUrl u)
  | Settled u (Rejected _) => Some (KUrl u)
  | UploadSuccess file _ => Some file
  | UploadFailure file _ => if isNullish file then None else Some file
  | _ => None
  end.

(** The key whose entry a turn may write or delete: the key a
    placeholder is created under, the key a handler resolves, the key
    the hook of a removed blot was armed with. *)
Definition touched (e : event) (s : QuillEmbedModule) : option LookupKey :=
  match e with
  | Scrape u => Some (KUrl u)
  | UploadStart file => Some file
  | Removed target =>
    match find (hasId target) (document s) with
    | Some b => deleteCallback b
    | None => None
    end
  | Selected _ => None
  | _ => resolutionKey e
  end.

(** What a turn writes to the error log. *)
Definition logged (e : event) : list string :=
  match e with
  | Settled _ (Fulfilled r) =>
    if String.eqb (type r) "site" || String.eqb (type r) "image"
    then []
    else ["That type of embed is not currently supported."]
  | Settled _ (Rejected error) => [message (reported error)]
  | UploadFailure _ error => [message error]
  | _ => []
  end.

(** The caret the tracker ends up with after the selections [rs], a lost
    focus ([None]) leaving it where it was. *)
Definition lastRange (rs : list (option RangeStatic)) (r0 : RangeStatic)
  : RangeStatic :=
  fold_left (fun acc r => default acc r) rs r0.

(** The caret recorded past the end of an empty document. *)
Definition strayCaret : QuillEmbedModule :=
  run [Selected (Some {| index := 5; length_ := 0 |})] initial.

(** One upload in flight, and the response that ends it. *)
Definition uploading : QuillEmbedModule := run [UploadStart (KFile 7)] initial.

Definition uploaded : UploadResponse := {| upload_url := "http://cdn.test/u.png" |}.

(** ** Symbolic evaluation of the handlers *)

Lemma insertAt_lookup {A} (i : nat) (x : A) (l : list A) :
  i <= length l -> insertAt i x l !! i = Some x.
Proof.
  intros Hi. unfold insertAt.
  apply list_lookup_middle. rewrite length_take. lia.
Qed.

Lemma insertAt_lookup_past {A} (i : nat) (x : A) (l : list A) :
  length l < i -> insertAt i x l !! i = None.
Proof.
  intros Hi. unfold insertAt.
  apply lookup_ge_None. rewrite length_app, length_take. simpl.
  rewrite length_drop. lia.
Qed.

Lemma createLoadingEmbed_valid (k : LookupKey) (s : QuillEmbedModule) :
  validSelection s ->
  createLoadingEmbed k s =
  (Normal tt,
   {| document := armBlot (nextBlot s) k
                    (insertAt (index (lastSelection s))
                       (created EmbedLoading s) (document s));
      selection := Some {| index := index (lastSelection s) + 1; length_ := 0 |};
      nextBlot := S (nextBlot s);
      currentUploads := <[k := nextBlot s]> (currentUploads s);
      lastSelection := lastSelection s;
      pauseSelectionTracking := false;
      errorLog := errorLog s |}).
Proof.
  intros Hv. unfold createLoadingEmbed, bind, modify, get, quill_insertEmbed,
    scroll_descendant_EmbedLoadingBlot, quill_setSelection, Parchment_create,
    handleEditorChange, registerDeleteCallback, currentUploads_set, bind,
    modify, get, ret; cbn.
  rewrite insertAt_lookup by exact Hv. cbn. reflexivity.
Qed.

Lemma createLoadingEmbed_invalid (k : LookupKey) (s : QuillEmbedModule) :
  length (document s) < index (lastSelection s) ->
  createLoadingEmbed k s =
  (Throw TypeError,
   {| document := insertAt (index (lastSelection s))
                    (created EmbedLoading s) (document s);
      selection := Some {| index := index (lastSelection s) + 1; length_ := 0 |};
      nextBlot := S (nextBlot s);
      currentUploads := currentUploads s;
      lastSelection := lastSelection s;
      pauseSelectionTracking := true;
      errorLog := errorLog s |}).
Proof.
  intros Hv. unfold createLoadingEmbed, bind, modify, get, quill_insertEmbed,
    scroll_descendant_EmbedLoadingBlot, quill_setSelection, Parchment_create,
    handleEditorChange, registerDeleteCallback, currentUploads_set, bind,
    modify, get, ret; cbn.
  rewrite insertAt_lookup_past by exact Hv. cbn. reflexivity.
Qed.

Lemma createSiteEmbed_resolved (r : ScrapeResult) (s : QuillEmbedModule) :
  createSiteEmbed r s =
  (Normal tt,
   resolved (KUrl (url r))
     (EmbedLink (url r) (name r) (photoUrl r) (body r)) s).
Proof. run_handler. destruct (currentUploads s !! KUrl (url r)); reflexivity. Qed.

Lemma createExternalImageEmbed_resolved (r : ScrapeResult) (s : QuillEmbedModule) :
  createExternalImageEmbed r s =
  (Normal tt,
   resolved (KUrl (url r)) (EmbedImage (photoUrl r) (Some (name r))) s).
Proof. run_handler. destruct (currentUploads s !! KUrl (url r)); reflexivity. Qed.

Lemma createVideoEmbed_resolved (r : ScrapeResult) (s : QuillEmbedModule) :
  createVideoEmbed r s =
  (Normal tt, resolved (KUrl (url r)) (EmbedVideo r) s).
Proof. run_handler. destruct (currentUploads s !! KUrl (url r)); reflexivity. Qed.

Lemma onImageUploadSuccess_resolved
  (file : LookupKey) (response : UploadResponse) (s : QuillEmbedModule) :
  onImageUploadSuccess file response s =
  (Normal tt, resolved file (EmbedImage (upload_url response) None) s).
Proof. run_handler. destruct (currentUploads s !! file); reflexivity. Qed.

Lemma createErrorEmbed_resolved
  (k : LookupKey) (error : Error) (s : QuillEmbedModule) :
  isNullish k = false ->
  createErrorEmbed k error s =
  (Normal tt,
   resolved k (EmbedError [error])
     (with_errorLog (errorLog s ++ [message error]) s)).
Proof.
  intros Hk. run_handler. rewrite Hk. cbn.
  destruct (currentUploads s !! k); reflexivity.
Qed.

(** With no key the error node goes straight into the document; the
    change is announced, so [lastSelection] follows the editor's
    selection when tracking is on and the editor has one. *)
Lemma createErrorEmbed_nullish
  (k : LookupKey) (error : Error) (s : QuillEmbedModule) :
  isNullish k = true ->
  createErrorEmbed k error s =
  (Normal tt,
   {| document := insertAt (index (lastSelection s))
                    (created (EmbedError [error]) s) (document s);
      selection := selection s;
      nextBlot := S (nextBlot s);
      currentUploads := currentUploads s;
      lastSelection := if pauseSelectionTracking s then lastSelection s
                       else match selection s with
                            | Some r => r
                            | None => lastSelection s
                            end;
      pauseSelectionTracking := pauseSelectionTracking s;
      errorLog := errorLog s ++ [message error] |}).
Proof.
  intros Hk. run_handler. rewrite Hk.
  destruct s as [d sel n m ls [] l]; cbn; [reflexivity |].
  destruct sel; reflexivity.
Qed.

(** ** The document as a list: insertion, replacement, arming, removal *)

Section DocumentLists.

Implicit Types (d : list blot) (b r x : blot) (t : nat) (k : LookupKey).

Lemma hasId_true t b : hasId t b = true <-> blot_id b = t.
Proof. unfold hasId. apply Nat.eqb_eq. Qed.

Lemma hasId_false t b : hasId t b = false <-> blot_id b <> t.
Proof. unfold hasId. apply Nat.eqb_neq. Qed.

Lemma insertAt_perm {A} (i : nat) (y : A) (l : list A) :
  insertAt i y l ≡ₚ y :: l.
Proof.
  unfold insertAt. rewrite <- Permutation_middle.
  by rewrite take_drop.
Qed.

Lemma elem_of_insertAt {A} (i : nat) (x y : A) (l : list A) :
  x ∈ insertAt i y l <-> x = y \/ x ∈ l.
Proof. rewrite insertAt_perm. apply elem_of_cons. Qed.

Lemma fmap_insertAt {A B} (f : A -> B) (i : nat) (y : A) (l : list A) :
  f <$> insertAt i y l = insertAt i (f y) (f <$> l).
Proof.
  unfold insertAt. by rewrite fmap_app, fmap_cons, fmap_take, fmap_drop.
Qed.

Lemma insertAt_length {A} (i : nat) (y : A) (l : list A) :
  length (insertAt i y l) = S (length l).
Proof. by rewrite insertAt_perm. Qed.

Lemma replaceBlot_elem t r d x :
  x ∈ replaceBlot t r d -> x = r \/ x ∈ d.
Proof.
  induction d as [|b d IH]; simpl; [by intros ?%elem_of_nil |].
  destruct (hasId t b).
  - intros [->|?]%elem_of_cons; [by left | right; by apply elem_of_cons; right].
  - intros [->|H]%elem_of_cons; [right; by apply elem_of_cons; left |].
    destruct (IH H); [by left | right; by apply elem_of_cons; right].
Qed.

Lemma replaceBlot_keeps t r d x :
  x ∈ d -> blot_id x <> t -> x ∈ replaceBlot t r d.
Proof.
  induction d as [|b d IH]; simpl; [by intros ?%elem_of_nil |].
  intros [->|H]%elem_of_cons Hne.
  - apply hasId_false in Hne. rewrite Hne. by apply elem_of_cons; left.
  - destruct (hasId t b) eqn:Hb.
    + by apply elem_of_cons; right.
    + apply elem_of_cons; right. by apply IH.
Qed.

Lemma replaceBlot_ids t r d i :
  i ∈ (blot_id <$> replaceBlot t r d) ->
  i = blot_id r \/ (i ∈ (blot_id <$> d)).
Proof.
  intros (x & -> & Hx)%list_elem_of_fmap.
  destruct (replaceBlot_elem _ _ _ _ Hx) as [->|H]; [by left | right].
  apply list_elem_of_fmap. eauto.
Qed.

Lemma replaceBlot_absent t r d :
  t ∉ (blot_id <$> d) -> replaceBlot t r d = d.
Proof.
  induction d as [|b d IH]; simpl; [done |].
  intros Hn. destruct (hasId t b) eqn:Hb.
  - apply hasId_true in Hb. exfalso. apply Hn. rewrite Hb. by apply elem_of_cons; left.
  - f_equal. apply IH. intros ?. apply Hn. by apply elem_of_cons; right.
Qed.

(** With unique identities, the replaced blot is gone. *)
Lemma replaceBlot_NoDup t r d :
  NoDup (blot_id <$> d) -> blot_id r ∉ (blot_id <$> d) ->
  NoDup (blot_id <$> replaceBlot t r d) /\
  (forall x, x ∈ replaceBlot t r d -> x = r \/ (x ∈ d /\ blot_id x <> t)).
Proof.
  induction d as [|b d IH]; simpl.
  - intros _ _. split; [constructor | by intros x ?%elem_of_nil].
  - intros [Hb Hd]%NoDup_cons Hr.
    assert (Hr1 : blot_id r <> blot_id b)
      by (intros E; apply Hr; rewrite E; by apply elem_of_cons; left).
    assert (Hr2 : blot_id r ∉ (blot_id <$> d))
      by (intros E; apply Hr; by apply elem_of_cons; right).
    destruct (hasId t b) eqn:Hh.
    + apply hasId_true in Hh. split.
      * simpl. apply NoDup_cons. split; assumption.
      * intros x [->|Hx]%elem_of_cons; [by left | right]. split.
        -- by apply elem_of_cons; right.
        -- intros E. apply Hb. rewrite Hh, <- E.
           apply list_elem_of_fmap. eauto.
    + apply hasId_false in Hh. destruct (IH Hd Hr2) as [IH1 IH2]. split.
      * simpl. apply NoDup_cons. split; [| assumption].
        intros [E|E]%replaceBlot_ids; [congruence | contradiction].
      * intros x [->|Hx]%elem_of_cons.
        -- right. split; [by apply elem_of_cons; left | assumption].
        -- destruct (IH2 x Hx) as [->|[? ?]]; [by left | right].
           split; [by apply elem_of_cons; right | assumption].
Qed.

Lemma armBlot_ids t k d : blot_id <$> armBlot t k d = blot_id <$> d.
Proof.
  induction d as [|b d IH]; simpl; [done |].
  destruct (hasId t b); simpl; [done | f_equal; apply IH].
Qed.

Lemma armBlot_keeps t k d x :
  x ∈ d -> blot_id x <> t -> x ∈ armBlot t k d.
Proof.
  induction d as [|b d IH]; simpl; [by intros ?%elem_of_nil |].
  intros [->|H]%elem_of_cons Hne.
  - apply hasId_false in Hne. rewrite Hne. by apply elem_of_cons; left.
  - destruct (hasId t b) eqn:Hb.
    + by apply elem_of_cons; right.
    + apply elem_of_cons; right. by apply IH.
Qed.

Lemma armBlot_app_miss t k d1 d2 :
  (forall b, b ∈ d1 -> blot_id b <> t) ->
  armBlot t k (d1 ++ d2) = d1 ++ armBlot t k d2.
Proof.
  induction d1 as [|b d1 IH]; simpl; [done |].
  intros H.
  assert (Hb : hasId t b = false)
    by (apply hasId_false, H; by apply elem_of_cons; left).
  rewrite Hb. f_equal. apply IH. intros ? ?. apply H. by apply elem_of_cons; right.
Qed.

(** Arming the blot just inserted, whose identity no other blot has. *)
Lemma armBlot_insertAt i t k v d :
  (forall b, b ∈ d -> blot_id b <> t) ->
  armBlot t k
    (insertAt i {| blot_id := t; blot_value := v; deleteCallback := None |} d)
  = insertAt i {| blot_id := t; blot_value := v; deleteCallback := Some k |} d.
Proof.
  intros H. unfold insertAt. rewrite armBlot_app_miss.
  - simpl. unfold hasId. simpl. by rewrite Nat.eqb_refl.
  - intros b Hb. apply H. by apply (subseteq_take i d).
Qed.

Lemma removeBlot_elem t d x : x ∈ removeBlot t d -> x ∈ d.
Proof.
  induction d as [|b d IH]; simpl; [done |].
  destruct (hasId t b).
  - intros ?. by apply elem_of_cons; right.
  - intros [->|H]%elem_of_cons; apply elem_of_cons; [by left | right; by apply IH].
Qed.

Lemma removeBlot_keeps t d x :
  x ∈ d -> blot_id x <> t -> x ∈ removeBlot t d.
Proof.
  induction d as [|b d IH]; simpl; [by intros ?%elem_of_nil |].
  intros [->|H]%elem_of_cons Hne.
  - apply hasId_false in Hne. rewrite Hne. by apply elem_of_cons; left.
  - destruct (hasId t b) eqn:Hb; [done |].
    apply elem_of_cons; right. by apply IH.
Qed.

Lemma removeBlot_NoDup t d :
  NoDup (blot_id <$> d) ->
  NoDup (blot_id <$> removeBlot t d) /\
  (forall x, x ∈ removeBlot t d -> blot_id x <> t).
Proof.
  induction d as [|b d IH]; simpl.
  - intros _. split; [constructor | by intros x ?%elem_of_nil].
  - intros [Hb Hd]%NoDup_cons. destruct (hasId t b) eqn:Hh.
    + apply hasId_true in Hh. split; [assumption |].
      intros x Hx E. apply Hb. rewrite Hh, <- E. apply list_elem_of_fmap. eauto.
    + apply hasId_false in Hh. destruct (IH Hd) as [IH1 IH2]. split.
      * simpl. apply NoDup_cons. split; [| assumption].
        intros (x & E & Hx)%list_elem_of_fmap. apply Hb.
        rewrite E. apply list_elem_of_fmap. eauto using removeBlot_elem.
      * intros x [->|Hx]%elem_of_cons; [assumption | by apply IH2].
Qed.

Lemma find_hasId t d b :
  find (hasId t) d = Some b -> b ∈ d /\ blot_id b = t.
Proof.
  induction d as [|b' d IH]; simpl; [done |].
  destruct (hasId t b') eqn:Hh.
  - intros [= <-]. split; [by apply elem_of_cons; left | by apply hasId_true].
  - intros H. destruct (IH H). split; [by apply elem_of_cons; right | done].
Qed.

Lemma find_hasId_None t d :
  find (hasId t) d = None -> removeBlot t d = d.
Proof.
  induction d as [|b' d IH]; simpl; [done |].
  destruct (hasId t b'); [done |]. intros H. by rewrite IH.
Qed.

(** With unique identities a blot is determined by its identity. *)
Lemma NoDup_ids_inj d x y :
  NoDup (blot_id <$> d) -> x ∈ d -> y ∈ d -> blot_id x = blot_id y -> x = y.
Proof.
  induction d as [|b d IH]; simpl; [by intros _ ?%elem_of_nil |].
  intros [Hb Hd]%NoDup_cons [->|Hx]%elem_of_cons [->|Hy]%elem_of_cons E.
  - done.
  - exfalso. apply Hb. rewrite E. apply list_elem_of_fmap. eauto.
  - exfalso. apply Hb. rewrite <- E. apply list_elem_of_fmap. eauto.
  - by apply IH.
Qed.

End DocumentLists.

(** ** Well-formed states *)

Lemma wellFormed_sameContent s s' :
  sameContent s s' -> wellFormed s -> wellFormed s'.
Proof.
  intros (Hd & Hn & Hm) [H1 H2 H3].
  split; rewrite ?Hd, ?Hn, ?Hm; assumption.
Qed.

Lemma handleEditorChange_sameContent ty a s :
  exists s', handleEditorChange ty a s = (Normal tt, s') /\ sameContent s s' /\
             errorLog s' = errorLog s.
Proof.
  unfold handleEditorChange, quill_getSelection, bind, get, modify, ret.
  destruct a, (pauseSelectionTracking s); cbn;
    try destruct (selection s); cbn; eexists; (split; [reflexivity |]);
    repeat split.
Qed.

Lemma wellFormed_initial : wellFormed initial.
Proof.
  split; cbn.
  - intros b ?%elem_of_nil. contradiction.
  - constructor.
  - intros k id H. by rewrite lookup_empty in H.
Qed.

Lemma fresh_not_in s :
  wellFormed s -> nextBlot s ∉ (blot_id <$> document s).
Proof.
  intros Hwf (b & E & Hb)%list_elem_of_fmap.
  apply (wf_fresh _ Hwf) in Hb. lia.
Qed.

(** A blot created and put into the document, the registry left alone. *)
Lemma wellFormed_inserted i v cb s s' :
  wellFormed s ->
  document s' =
    insertAt i {| blot_id := nextBlot s; blot_value := v; deleteCallback := cb |}
      (document s) ->
  nextBlot s' = S (nextBlot s) ->
  (forall k id, currentUploads s' !! k = Some id ->
     currentUploads s !! k = Some id \/ (id = nextBlot s /\ v = EmbedLoading /\ cb = Some k)) ->
  wellFormed s'.
Proof.
  intros Hwf Hd Hn Hm. split; rewrite ?Hd, ?Hn.
  - intros b [->|Hb]%elem_of_insertAt; cbn; [lia |].
    apply (wf_fresh _ Hwf) in Hb. lia.
  - rewrite fmap_insertAt, insertAt_perm. cbn. apply NoDup_cons.
    split; [by apply fresh_not_in | by apply (wf_unique _ Hwf)].
  - intros k id [H|(-> & -> & ->)]%Hm; apply elem_of_insertAt.
    + right. by apply (wf_registered _ Hwf).
    + by left.
Qed.

Lemma createLoadingEmbed_wellFormed_valid k s :
  wellFormed s -> validSelection s ->
  createLoadingEmbed k s =
  (Normal tt,
   {| document := insertAt (index (lastSelection s))
                    (placeholder (nextBlot s) k) (document s);
      selection := Some {| index := index (lastSelection s) + 1; length_ := 0 |};
      nextBlot := S (nextBlot s);
      currentUploads := <[k := nextBlot s]> (currentUploads s);
      lastSelection := lastSelection s;
      pauseSelectionTracking := false;
      errorLog := errorLog s |}).
Proof.
  intros Hwf Hv. rewrite createLoadingEmbed_valid by exact Hv.
  unfold created. rewrite armBlot_insertAt; [reflexivity |].
  intros b Hb%(wf_fresh _ Hwf). lia.
Qed.

Lemma wellFormed_createLoadingEmbed k s :
  wellFormed s -> wellFormed (snd (createLoadingEmbed k s)).
Proof.
  intros Hwf.
  destruct (le_lt_dec (index (lastSelection s)) (length (document s))) as [Hv|Hv].
  - rewrite createLoadingEmbed_wellFormed_valid by assumption. cbn.
    eapply wellFormed_inserted; [exact Hwf | reflexivity | reflexivity |].
    cbn. intros k' id. rewrite lookup_insert. case_decide as E.
    + intros [= <-]. subst k'. by right.
    + by left.
  - rewrite createLoadingEmbed_invalid by assumption. cbn.
    eapply wellFormed_inserted; [exact Hwf | reflexivity | reflexivity |].
    cbn. by left.
Qed.

Lemma wellFormed_resolved k v s :
  wellFormed s -> wellFormed (resolved k v s).
Proof.
  intros Hwf.
  destruct (replaceBlot_NoDup
              (default 0 (currentUploads s !! k)) (created v s) (document s)
              (wf_unique _ Hwf) (fresh_not_in _ Hwf)) as [Hnd Hel].
  split; cbn.
  - intros b Hb.
    assert (b = created v s \/ b ∈ document s) as [->|Hb'].
    { destruct (currentUploads s !! k); [by apply replaceBlot_elem in Hb | by right]. }
    + cbn. lia.
    + apply (wf_fresh _ Hwf) in Hb'. lia.
  - destruct (currentUploads s !! k); [exact Hnd | by apply (wf_unique _ Hwf)].
  - intros k' id. rewrite lookup_delete. case_decide as E; [done |].
    intros H. pose proof (wf_registered _ Hwf _ _ H) as Hp.
    destruct (currentUploads s !! k) as [t|] eqn:Hk; [| exact Hp].
    apply replaceBlot_keeps; [exact Hp |]. cbn. intros ->.
    pose proof (wf_registered _ Hwf _ _ Hk) as Hq.
    pose proof (NoDup_ids_inj _ _ _ (wf_unique _ Hwf) Hp Hq eq_refl) as Heq.
    injection Heq as Heq. by apply E.
Qed.

Lemma wellFormed_with_errorLog l s :
  wellFormed s -> wellFormed (with_errorLog l s).
Proof. apply wellFormed_sameContent. by repeat split. Qed.

Lemma wellFormed_createErrorEmbed k e s :
  wellFormed s -> wellFormed (snd (createErrorEmbed k e s)).
Proof.
  intros Hwf. destruct (isNullish k) eqn:Hk.
  - rewrite createErrorEmbed_nullish by assumption. cbn.
    eapply wellFormed_inserted; [exact Hwf | reflexivity | reflexivity |].
    cbn. by left.
  - rewrite createErrorEmbed_resolved by assumption. cbn.
    by apply wellFormed_resolved, wellFormed_with_errorLog.
Qed.

Lemma scrapeMedia_then_cases u r s :
  scrapeMedia_then u r s =
  if String.eqb (type r) "site" then
    (Normal tt,
     resolved (KUrl (url r)) (EmbedLink (url r) (name r) (photoUrl r) (body r)) s)
  else if String.eqb (type r) "image" then
    (Normal tt,
     resolved (KUrl (url r)) (EmbedImage (photoUrl r) (Some (name r))) s)
  else
    (Normal tt,
     resolved (KUrl u)
       (EmbedError [new_Error "That type of embed is not currently supported."])
       (with_errorLog
          (errorLog s ++ ["That type of embed is not currently supported."]) s)).
Proof.
  unfold scrapeMedia_then.
  destruct (String.eqb (type r) "site"); [apply createSiteEmbed_resolved |].
  destruct (String.eqb (type r) "image"); [apply createExternalImageEmbed_resolved |].
  by rewrite createErrorEmbed_resolved.
Qed.

Lemma scrapeMedia_catch_reported u error s :
  scrapeMedia_catch u error s =
  (Normal tt,
   resolved (KUrl u) (EmbedError [reported error])
     (with_errorLog (errorLog s ++ [message (reported error)]) s)).
Proof.
  unfold scrapeMedia_catch, reported.
  destruct (response error) as [[[[[msg|]]|]]|];
    try (by rewrite createErrorEmbed_resolved).
  destruct (String.eqb msg ""); [by rewrite createErrorEmbed_resolved |].
  destruct (String.prefix "Failed to load URL" msg);
    by rewrite createErrorEmbed_resolved.
Qed.

(** The [then] continuation never throws, so a fulfilled request never
    reaches [catch]. *)
Lemma scrapeMedia_settled_Fulfilled u r s :
  scrapeMedia_settled u (Fulfilled r) s = scrapeMedia_then u r s.
Proof.
  cbn. rewrite scrapeMedia_then_cases.
  destruct (String.eqb (type r) "site"); [reflexivity |].
  destruct (String.eqb (type r) "image"); reflexivity.
Qed.

Lemma quill_remove_absent t s :
  find (hasId t) (document s) = None -> quill_remove t s = (Normal tt, s).
Proof. intros H. unfold quill_remove, bind, get, ret. cbn. by rewrite H. Qed.

(** Removing a node: it leaves the document and its callback, if armed
    under [k], drops whatever [currentUploads] holds for [k]. *)
Lemma quill_remove_found t b s :
  find (hasId t) (document s) = Some b ->
  exists s',
    quill_remove t s = (Normal tt, s') /\
    document s' = removeBlot t (document s) /\
    nextBlot s' = nextBlot s /\
    currentUploads s' = match deleteCallback b with
                        | Some k => delete k (currentUploads s)
                        | None => currentUploads s
                        end /\
    errorLog s' = errorLog s.
Proof.
  intros H. unfold quill_remove, bind at 1, get at 1. cbn. rewrite H.
  unfold bind at 1. unfold bind at 1. unfold modify at 1. cbn.
  set (s1 := with_document (removeBlot t (document s)) s).
  assert (exists s2,
            (match deleteCallback b with
             | Some k => deleteCallback_run k
             | None => ret tt
             end) s1 = (Normal tt, s2) /\
            document s2 = document s1 /\ nextBlot s2 = nextBlot s1 /\
            currentUploads s2 = match deleteCallback b with
                                | Some k => delete k (currentUploads s1)
                                | None => currentUploads s1
                                end /\
            errorLog s2 = errorLog s1) as (s2 & E2 & Hd & Hn & Hm & Hl).
  { destruct (deleteCallback b) as [k|]; [| by eexists].
    unfold deleteCallback_run, currentUploads_has, currentUploads_delete,
      bind, get, modify, ret. cbn.
    case_bool_decide as Hp; eexists; (split; [reflexivity |]); cbn;
      repeat split.
    symmetry. apply delete_id. by apply eq_None_not_Some. }
  rewrite E2.
  destruct (handleEditorChange_sameContent "text-change" ArgDelta s2)
    as (s' & E & (Hd' & Hn' & Hm') & Hl').
  exists s'. split; [exact E |].
  rewrite Hd', Hn', Hm', Hl', Hd, Hn, Hm, Hl. by repeat split.
Qed.

Lemma wellFormed_quill_remove t s :
  wellFormed s -> wellFormed (snd (quill_remove t s)).
Proof.
  intros Hwf. destruct (find (hasId t) (document s)) as [b|] eqn:Hf.
  - destruct (quill_remove_found _ _ _ Hf) as (s' & -> & Hd & Hn & Hm & _). cbn.
    destruct (find_hasId _ _ _ Hf) as [Hb Hid].
    destruct (removeBlot_NoDup t _ (wf_unique _ Hwf)) as [Hnd Hne].
    split; rewrite ?Hd, ?Hn, ?Hm.
    + intros x Hx%removeBlot_elem. by apply (wf_fresh _ Hwf).
    + exact Hnd.
    + intros k id Hk.
      assert (currentUploads s !! k = Some id /\ deleteCallback b <> Some k)
        as [Hk' Hcb].
      { destruct (deleteCallback b) as [k0|]; [| done].
        rewrite lookup_delete in Hk. case_decide; [done |]. split; congruence. }
      pose proof (wf_registered _ Hwf _ _ Hk') as Hp.
      apply removeBlot_keeps; [exact Hp |]. cbn. intros ->.
      apply Hcb.
      rewrite <- (NoDup_ids_inj _ _ _ (wf_unique _ Hwf) Hp Hb (eq_sym Hid)).
      reflexivity.
  - by rewrite quill_remove_absent.
Qed.

Lemma quill_select_sameContent r s :
  exists s', quill_select r s = (Normal tt, s') /\ sameContent s s' /\
             errorLog s' = errorLog s.
Proof.
  unfold quill_select, bind at 1, modify at 1. cbn.
  destruct (handleEditorChange_sameContent "selection-change"
              (match r with Some r' => ArgRange r' | None => ArgNull end)
              (with_selection r s)) as (s' & E & Hs & Hl).
  exists s'. split; [exact E |]. split; assumption.
Qed.

Lemma wellFormed_step e s : wellFormed s -> wellFormed (step e s).
Proof.
  intros Hwf. unfold step. destruct e as [u|u [r|err]|f|f resp|f err|t|r]; cbn [handle].
  - by apply wellFormed_createLoadingEmbed.
  - rewrite scrapeMedia_settled_Fulfilled, scrapeMedia_then_cases.
    destruct (String.eqb (type r) "site");
      [by apply wellFormed_resolved |].
    destruct (String.eqb (type r) "image");
      [by apply wellFormed_resolved |].
    by apply wellFormed_resolved, wellFormed_with_errorLog.
  - cbn [scrapeMedia_settled]. rewrite scrapeMedia_catch_reported.
    by apply wellFormed_resolved, wellFormed_with_errorLog.
  - by apply wellFormed_createLoadingEmbed.
  - rewrite onImageUploadSuccess_resolved. by apply wellFormed_resolved.
  - by apply wellFormed_createErrorEmbed.
  - by apply wellFormed_quill_remove.
  - destruct (quill_select_sameContent r s) as (s' & -> & Hs & _).
    by apply (wellFormed_sameContent s).
Qed.

Lemma wellFormed_run es s : wellFormed s -> wellFormed (run es s).
Proof.
  revert s. induction es as [|e es IH]; intros s Hwf; cbn; [done |].
  by apply IH, wellFormed_step.
Qed.

Lemma reachable_wellFormed s : reachable s -> wellFormed s.
Proof. intros [es ->]. apply wellFormed_run, wellFormed_initial. Qed.

Lemma reachable_step e s : reachable s -> reachable (step e s).
Proof.
  intros [es ->]. exists (es ++ [e]).
  generalize initial. induction es as [|e' es IH]; intros s0; cbn; [done |].
  apply IH.
Qed.

(** ** Resolution of a key *)

Lemma replaceBlot_app_miss t r d1 d2 :
  (forall b, b ∈ d1 -> blot_id b <> t) ->
  replaceBlot t r (d1 ++ d2) = d1 ++ replaceBlot t r d2.
Proof.
  induction d1 as [|b d1 IH]; simpl; [done |].
  intros H.
  assert (Hb : hasId t b = false)
    by (apply hasId_false, H; by apply elem_of_cons; left).
  rewrite Hb. f_equal. apply IH. intros ? ?. apply H. by apply elem_of_cons; right.
Qed.

Lemma replaceBlot_in_place t r d1 b d2 :
  NoDup (blot_id <$> (d1 ++ b :: d2)) -> blot_id b = t ->
  replaceBlot t r (d1 ++ b :: d2) = d1 ++ r :: d2.
Proof.
  intros Hnd Hb. rewrite replaceBlot_app_miss.
  - simpl. apply hasId_true in Hb. by rewrite Hb.
  - intros x Hx E. rewrite fmap_app in Hnd.
    apply NoDup_app in Hnd as (_ & Hdisj & _).
    apply (Hdisj t).
    + rewrite <- E. apply list_elem_of_fmap. eauto.
    + rewrite fmap_cons, Hb. by apply elem_of_cons; left.
Qed.

Lemma resolved_resolves k v l s :
  wellFormed s ->
  resolves k v s (Normal tt, resolved k v (with_errorLog l s)).
Proof.
  intros Hwf. unfold resolves. cbn. repeat split.
  destruct (currentUploads s !! k) as [id|] eqn:Hk; [| reflexivity].
  destruct (list_elem_of_split _ _ (wf_registered _ Hwf _ _ Hk))
    as (d1 & d2 & Hd).
  exists d1, d2. split; [exact Hd |].
  rewrite Hd. apply replaceBlot_in_place; [| reflexivity].
  rewrite <- Hd. apply (wf_unique _ Hwf).
Qed.

Lemma resolved_resolves' k v s :
  wellFormed s -> resolves k v s (Normal tt, resolved k v s).
Proof.
  intros Hwf. destruct s. apply (resolved_resolves k v errorLog0 _ Hwf).
Qed.

(** ** Scraping: dispatch on the response *)

(** C7.  A fulfilled scrape whose [type] is ["site"] builds one
    [embed-link] node carrying [url], [name], [linkImage := photoUrl] and
    [excerpt := body] of the response; one whose [type] is ["image"]
    builds one [embed-image] node whose [url] is the response's
    [photoUrl] and whose [alt] is its [name].  The node takes the place
    of the placeholder registered under the response's [url]. *)
Theorem scrape_fulfilled_builds_mapped_embed
  (s : QuillEmbedModule) (u : string) (site image : ScrapeResult) :
  reachable s ->
  type site = "site" ->
  type image = "image" ->
  resolves (KUrl (url site))
    (EmbedLink (url site) (name site) (photoUrl site) (body site)) s
    (scrapeMedia_settled u (Fulfilled site) s) /\
  resolves (KUrl (url image))
    (EmbedImage (photoUrl image) (Some (name image))) s
    (scrapeMedia_settled u (Fulfilled image) s).
Proof.
  intros Hwf%reachable_wellFormed Hs Hi.
  rewrite !scrapeMedia_settled_Fulfilled, !scrapeMedia_then_cases, Hs, Hi.
  cbn [String.eqb Ascii.eqb Bool.eqb].
  split; by apply resolved_resolves'.
Qed.

(** C6.  A fulfilled scrape whose [type] is neither ["site"] nor
    ["image"] logs and builds exactly one node, an [embed-error] whose
    only error has the message "That type of embed is not currently
    supported.", and resolves the submitted URL with it. *)
Theorem scrape_unsupported_type_resolves_error
  (s : QuillEmbedModule) (u : string) (r : ScrapeResult) :
  reachable s ->
  type r <> "site" ->
  type r <> "image" ->
  resolves (KUrl u)
    (EmbedError [new_Error "That type of embed is not currently supported."]) s
    (scrapeMedia_settled u (Fulfilled r) s) /\
  errorLog (snd (scrapeMedia_settled u (Fulfilled r) s)) =
    errorLog s ++ ["That type of embed is not currently supported."].
Proof.
  intros Hwf%reachable_wellFormed Hs%String.eqb_neq Hi%String.eqb_neq.
  rewrite !scrapeMedia_settled_Fulfilled, !scrapeMedia_then_cases, Hs, Hi.
  split; [by apply resolved_resolves | reflexivity].
Qed.

(** ** Scraping: a rejected request *)

(** C5, as amended.  For a rejected scrape whose payload carries a
    non-empty [response.data.message]: the message is logged and exactly
    one [embed-error] node is built; its error has the generic message
    when the server message starts with "Failed to load URL" and the
    server message itself otherwise; the submitted URL is resolved with
    that node. *)
Theorem scrape_rejected_reports_server_message
  (s : QuillEmbedModule) (u own_message msg : string) :
  reachable s ->
  msg <> "" ->
  resolves (KUrl u) (EmbedError [new_Error (shown msg)]) s
    (scrapeMedia_settled u (Rejected (rejection own_message msg)) s) /\
  errorLog (snd (scrapeMedia_settled u (Rejected (rejection own_message msg)) s)) =
    errorLog s ++ [shown msg].
Proof.
  intros Hwf%reachable_wellFormed Hm%String.eqb_neq.
  cbn [scrapeMedia_settled]. rewrite scrapeMedia_catch_reported.
  assert (E : reported (rejection own_message msg) = new_Error (shown msg)).
  { unfold reported, rejection, shown. cbn [response]. rewrite Hm.
    by destruct (String.prefix _ msg). }
  rewrite E. split; [by apply resolved_resolves | reflexivity].
Qed.

(** C5, the claim as stated fails: the empty string is a message that
    does not start with the pattern, yet the error node does not carry
    it; the guard [error.response.data.message] is false for it and the
    node carries the rejection itself. *)
Lemma scrape_rejected_empty_message_not_verbatim :
  let e := rejection "Request failed with status code 500" "" in
  let s := run [Scrape "http://a.test"; Settled "http://a.test" (Rejected e)] initial in
  String.prefix "Failed to load URL" "" = false /\
  document s =
    [{| blot_id := 1; blot_value := EmbedError [e]; deleteCallback := None |}] /\
  message e = "Request failed with status code 500" /\
  message e <> "".
Proof.
  cbv zeta. split; [reflexivity |]. split; [reflexivity |].
  split; [reflexivity |]. intros H. discriminate H.
Qed.

(** ** Results that arrive after the placeholder is gone *)

(** Removing an armed placeholder leaves no entry under the key its hook
    was armed with, whatever that entry pointed at. *)
Lemma deletion_hook_removes_key t b k s :
  find (hasId t) (document s) = Some b ->
  deleteCallback b = Some k ->
  fst (quill_remove t s) = Normal tt /\
  currentUploads (step (Removed t) s) !! k = None.
Proof.
  intros Hf Hcb. unfold step. cbn [handle].
  destruct (quill_remove_found _ _ _ Hf) as (s' & -> & _ & _ & Hm & _).
  cbn. rewrite Hm, Hcb. split; [reflexivity | apply lookup_delete_eq].
Qed.

Lemma resolved_absent k v s :
  currentUploads s !! k = None ->
  resolved k v s = with_nextBlot (S (nextBlot s)) s.
Proof.
  intros Hk. unfold resolved, with_nextBlot. rewrite Hk.
  by rewrite delete_id.
Qed.

(** C4.  When [k] has no entry, its placeholder's hook having fired, a
    success arriving for [k] ([onImageUploadSuccess] for a file, a scrape
    constructor for a response with that [url]) returns without throwing
    and leaves the document and the registry as they were: nothing is
    inserted, nothing replaced, [k] is still absent. *)
Theorem late_success_is_discarded
  (s : QuillEmbedModule) (k : LookupKey) :
  currentUploads s !! k = None ->
  (forall response, silentNoOp s (onImageUploadSuccess k response s)) /\
  (forall u r,
     KUrl (url r) = k ->
     silentNoOp s (createSiteEmbed r s) /\
     silentNoOp s (createExternalImageEmbed r s) /\
     (type r = "site" \/ type r = "image" ->
      silentNoOp s (scrapeMedia_settled u (Fulfilled r) s))).
Proof.
  intros Hk. split.
  - intros resp. rewrite onImageUploadSuccess_resolved, resolved_absent by done.
    by repeat split.
  - intros u r <-.
    rewrite createSiteEmbed_resolved, createExternalImageEmbed_resolved,
      scrapeMedia_settled_Fulfilled, scrapeMedia_then_cases.
    rewrite !resolved_absent by done.
    repeat split.
    all: destruct H as [-> | ->]; reflexivity.
Qed.

(** C3, as amended.  When [k] has no entry, [createErrorEmbed] logs the
    message and returns; for a key that is not nullish nothing is
    inserted or replaced, the document and the registry are as before;
    the standalone error node at [lastSelection.index] is what a nullish
    key gets. *)
Theorem late_error_is_logged_only
  (s : QuillEmbedModule) (k : LookupKey) (error : Error) :
  currentUploads s !! k = None ->
  let c := createErrorEmbed k error s in
  fst c = Normal tt /\
  errorLog (snd c) = errorLog s ++ [message error] /\
  currentUploads (snd c) = currentUploads s /\
  document (snd c) =
    if isNullish k
    then insertAt (index (lastSelection s))
           (created (EmbedError [error]) s) (document s)
    else document s.
Proof.
  intros Hk. cbv zeta. destruct (isNullish k) eqn:Hn.
  - rewrite createErrorEmbed_nullish by done. by repeat split.
  - rewrite createErrorEmbed_resolved, resolved_absent by done. by repeat split.
Qed.

(** C3, the claim as stated fails: the placeholder of a scrape is
    removed, its hook fires, and the error that arrives for the URL
    afterwards inserts no node at all. *)
Lemma late_error_inserts_no_node :
  let k := KUrl "http://a.test" in
  let error := new_Error "Request failed" in
  let s := run [Scrape "http://a.test"; Removed 0] initial in
  isNullish k = false /\
  currentUploads s !! k = None /\
  document (snd (createErrorEmbed k error s)) = [] /\
  document (snd (createErrorEmbed k error s)) <>
    insertAt (index (lastSelection s)) (created (EmbedError [error]) s)
      (document s).
Proof.
  cbv zeta. split; [reflexivity |]. split; [reflexivity |].
  split; [reflexivity |]. intros H. discriminate H.
Qed.

(** ** Creation and removal of entries *)

(** After [createLoadingEmbed k] the entry of [k] is the blot it created. *)
Lemma createLoadingEmbed_registers k s :
  reachable s -> validSelection s ->
  let c := createLoadingEmbed k s in
  fst c = Normal tt /\
  currentUploads (snd c) !! k = Some (nextBlot s) /\
  document (snd c) !! index (lastSelection s) = Some (placeholder (nextBlot s) k).
Proof.
  intros Hwf%reachable_wellFormed Hv. cbv zeta.
  rewrite createLoadingEmbed_wellFormed_valid by assumption. cbn.
  split; [reflexivity |]. split; [apply lookup_insert_eq |].
  by apply insertAt_lookup.
Qed.

(** Every resolving handler drops the entry of the key it looks up. *)
Lemma resolved_removes_key k v s : currentUploads (resolved k v s) !! k = None.
Proof. cbn. apply lookup_delete_eq. Qed.

(** The error path of a scrape resolves the URL that was submitted. *)
Lemma scrape_rejected_removes_submitted_key u error s :
  currentUploads (snd (scrapeMedia_settled u (Rejected error) s)) !! KUrl u = None.
Proof.
  cbn [scrapeMedia_settled]. rewrite scrapeMedia_catch_reported.
  apply resolved_removes_key.
Qed.

Lemma upload_success_removes_key file response s :
  currentUploads (snd (onImageUploadSuccess file response s)) !! file = None.
Proof. rewrite onImageUploadSuccess_resolved. apply resolved_removes_key. Qed.

(** The success path resolves the [url] of the response instead: when
    that is not the URL submitted, the submitted URL keeps its entry. *)
Lemma scrape_success_other_url_keeps_key u r s :
  reachable s -> validSelection s ->
  url r <> u ->
  type r = "site" \/ type r = "image" ->
  currentUploads (run [Scrape u; Settled u (Fulfilled r)] s) !! KUrl u =
    Some (nextBlot s).
Proof.
  intros Hwf%reachable_wellFormed Hv Hu Ht. cbn [run]. unfold step at 2.
  cbn [handle]. unfold scrapeMedia.
  rewrite createLoadingEmbed_wellFormed_valid by assumption. cbn [snd].
  unfold step. cbn [handle].
  rewrite scrapeMedia_settled_Fulfilled, scrapeMedia_then_cases.
  assert (Hne : KUrl (url r) <> KUrl u) by congruence.
  destruct Ht as [-> | ->]; cbn;
    rewrite lookup_delete_ne by exact Hne; apply lookup_insert_eq.
Qed.

(** C1, at the failing input.  ["http://a.test"] is submitted and the
    scrape succeeds with a response whose [url] is ["http://a.test/"]:
    [createSiteEmbed] looks up and deletes under the response's [url],
    so the entry of the submitted URL is still there and its placeholder
    is still the loading blot. *)
Theorem scrape_success_keeps_submitted_key :
  let s := run [Scrape "http://a.test";
                Settled "http://a.test" (Fulfilled redirected)] initial in
  currentUploads s !! KUrl "http://a.test" = Some 0 /\
  document s = [placeholder 0 (KUrl "http://a.test")].
Proof. cbv zeta. split; reflexivity. Qed.

(** ** The earlier upload-failure handler *)

Lemma onImageUploadFailure_absent_throws k error s :
  isNullish k = false ->
  currentUploads s !! k = None ->
  fst (onImageUploadFailure k error s) = Throw TypeError.
Proof.
  intros Hn Hk. run_handler. rewrite Hn. cbn. by rewrite Hk.
Qed.


(** C9, at the failing input.  A file's placeholder has been removed
    when its upload fails: [onImageUploadFailure] logs, finds no blot
    under the file, skips the guarded [replaceWith] and then calls
    [replaceWith] on the absent blot again, which throws;
    [createErrorEmbed] returns from the same state. *)
Theorem onImageUploadFailure_throws_after_removal :
  let file := KFile 7 in
  let error := new_Error "Upload failed" in
  let s := run [UploadStart file; Removed 0] initial in
  currentUploads s !! file = None /\
  fst (onImageUploadFailure file error s) = Throw TypeError /\
  errorLog (snd (onImageUploadFailure file error s)) = ["Upload failed"] /\
  fst (createErrorEmbed file error s) = Normal tt.
Proof. cbv zeta. repeat split; reflexivity. Qed.

(** ** Two placeholders under one key *)

Lemma orphaned_sameContent f k s s' :
  sameContent s s' -> orphaned f k s -> orphaned f k s'.
Proof.
  intros (Hd & Hn & Hm) (H1 & H2 & H3).
  unfold orphaned. rewrite Hd, Hn, Hm. done.
Qed.

Lemma orphaned_resolved f k k' v s :
  orphaned f k s -> orphaned f k (resolved k' v s).
Proof.
  intros (H1 & H2 & H3). unfold orphaned. cbn. split; [| split].
  - destruct (currentUploads s !! k') as [t|] eqn:Hk; [| exact H1].
    apply replaceBlot_keeps; [exact H1 |]. cbn. intros ->. by apply (H3 k').
  - lia.
  - intros k''. rewrite lookup_delete. case_decide; [done | apply H3].
Qed.

Lemma orphaned_createLoadingEmbed f k k' s :
  orphaned f k s -> orphaned f k (snd (createLoadingEmbed k' s)).
Proof.
  intros (H1 & H2 & H3).
  destruct (le_lt_dec (index (lastSelection s)) (length (document s))) as [Hv|Hv].
  - rewrite createLoadingEmbed_valid by assumption. unfold orphaned. cbn.
    split; [| split].
    + apply armBlot_keeps; [| cbn; lia]. apply elem_of_insertAt. by right.
    + lia.
    + intros k''. rewrite lookup_insert. case_decide; [| apply H3].
      intros [= E]. lia.
  - rewrite createLoadingEmbed_invalid by assumption. unfold orphaned. cbn.
    split; [| split].
    + apply elem_of_insertAt. by right.
    + lia.
    + apply H3.
Qed.

Lemma orphaned_createErrorEmbed f k k' e s :
  orphaned f k s -> orphaned f k (snd (createErrorEmbed k' e s)).
Proof.
  intros Ho. destruct (isNullish k') eqn:Hn.
  - rewrite createErrorEmbed_nullish by done. destruct Ho as (H1 & H2 & H3).
    unfold orphaned. cbn. split; [| split].
    + apply elem_of_insertAt. by right.
    + lia.
    + apply H3.
  - rewrite createErrorEmbed_resolved by done. cbn [snd].
    apply orphaned_resolved.
    revert Ho. apply orphaned_sameContent. by repeat split.
Qed.

Lemma orphaned_step f k e s :
  e <> Removed f -> orphaned f k s -> orphaned f k (step e s).
Proof.
  intros He Ho. unfold step.
  destruct e as [u|u [r|err]|file|file resp|file err|t|r]; cbn [handle].
  - by apply orphaned_createLoadingEmbed.
  - rewrite scrapeMedia_settled_Fulfilled, scrapeMedia_then_cases.
    destruct (String.eqb (type r) "site"); [by apply orphaned_resolved |].
    destruct (String.eqb (type r) "image"); [by apply orphaned_resolved |].
    cbn [snd]. apply orphaned_resolved.
    revert Ho. apply orphaned_sameContent. by repeat split.
  - cbn [scrapeMedia_settled]. rewrite scrapeMedia_catch_reported. cbn [snd].
    apply orphaned_resolved.
    revert Ho. apply orphaned_sameContent. by repeat split.
  - by apply orphaned_createLoadingEmbed.
  - rewrite onImageUploadSuccess_resolved. by apply orphaned_resolved.
  - by apply orphaned_createErrorEmbed.
  - assert (t <> f) as Ht by congruence.
    destruct (find (hasId t) (document s)) as [b|] eqn:Hf.
    + destruct (quill_remove_found _ _ _ Hf) as (s' & -> & Hd & Hn & Hm & _).
      destruct Ho as (H1 & H2 & H3). unfold orphaned. cbn.
      rewrite Hd, Hn, Hm. split; [| split].
      * apply removeBlot_keeps; [exact H1 | cbn; congruence].
      * exact H2.
      * intros k'. destruct (deleteCallback b); [| apply H3].
        rewrite lookup_delete. case_decide; [done | apply H3].
    + by rewrite quill_remove_absent.
  - destruct (quill_select_sameContent r s) as (s' & -> & Hs & _).
    by apply (orphaned_sameContent f k s).
Qed.

Lemma orphaned_run f k es s :
  Removed f ∉ es -> orphaned f k s -> orphaned f k (run es s).
Proof.
  revert s. induction es as [|e es IH]; intros s Hn Ho; cbn; [done |].
  apply IH.
  - intros ?. apply Hn. by apply elem_of_cons; right.
  - apply orphaned_step; [| done]. intros ->. apply Hn. by apply elem_of_cons; left.
Qed.

Lemma submittedTwice_state k s :
  wellFormed s -> validSelection s ->
  fst (createLoadingEmbed k s) = Normal tt /\
  fst (createLoadingEmbed k (snd (createLoadingEmbed k s))) = Normal tt /\
  currentUploads (snd (createLoadingEmbed k s)) !! k = Some (nextBlot s) /\
  nextBlot (submittedTwice k s) = S (S (nextBlot s)) /\
  currentUploads (submittedTwice k s) =
    <[k := S (nextBlot s)]> (<[k := nextBlot s]> (currentUploads s)) /\
  document (submittedTwice k s) =
    insertAt (index (lastSelection s)) (placeholder (S (nextBlot s)) k)
      (insertAt (index (lastSelection s)) (placeholder (nextBlot s) k)
         (document s)).
Proof.
  intros Hwf Hv. unfold submittedTwice.
  pose proof (wellFormed_createLoadingEmbed k s Hwf) as Hwf1.
  rewrite (createLoadingEmbed_wellFormed_valid k s Hwf Hv) in *.
  cbn [fst snd] in *.
  rewrite createLoadingEmbed_wellFormed_valid; [cbn | exact Hwf1 |].
  - repeat split. apply lookup_insert_eq.
  - unfold validSelection. cbn. rewrite insertAt_length.
    unfold validSelection in Hv. lia.
Qed.

(** C8.  [createLoadingEmbed k] twice in a row, nothing resolved in
    between: both calls return; the entry of [k] is the second blot and
    nothing else, no entry leads to the first; both placeholders are in
    the document; and whatever happens afterwards, short of the first
    placeholder being removed from outside, it stays in the document as
    the loading blot it is: no resolution ever reaches it. *)
Theorem duplicate_submission_last_write_wins
  (s : QuillEmbedModule) (k : LookupKey) :
  reachable s ->
  validSelection s ->
  let first := nextBlot s in
  let second := S (nextBlot s) in
  let s1 := snd (createLoadingEmbed k s) in
  let s2 := submittedTwice k s in
  fst (createLoadingEmbed k s) = Normal tt /\
  fst (createLoadingEmbed k s1) = Normal tt /\
  currentUploads s1 !! k = Some first /\
  currentUploads s2 !! k = Some second /\
  (forall id, currentUploads s2 !! k = Some id -> id = second) /\
  (forall k', currentUploads s2 !! k' <> Some first) /\
  placeholder first k ∈ document s2 /\
  placeholder second k ∈ document s2 /\
  (forall es, Removed first ∉ es ->
              placeholder first k ∈ document (run es s2)).
Proof.
  intros Hwf%reachable_wellFormed Hv. cbv zeta.
  destruct (submittedTwice_state k s Hwf Hv) as (R1 & R2 & R3 & Hn & Hm & Hd).
  assert (Hk2 : currentUploads (submittedTwice k s) !! k = Some (S (nextBlot s)))
    by (rewrite Hm; apply lookup_insert_eq).
  assert (Hnone : forall k', currentUploads (submittedTwice k s) !! k' <> Some (nextBlot s)).
  { intros k'. rewrite Hm, lookup_insert. case_decide; [intros [= E]; lia |].
    rewrite lookup_insert_ne by done.
    intros Hk%(wf_registered _ Hwf)%(wf_fresh _ Hwf). cbn in Hk. lia. }
  assert (Hfirst : placeholder (nextBlot s) k ∈ document (submittedTwice k s)).
  { rewrite Hd. apply elem_of_insertAt. right. apply elem_of_insertAt. by left. }
  repeat split; try assumption.
  - intros id. rewrite Hk2. congruence.
  - rewrite Hd. apply elem_of_insertAt. by left.
  - intros es Hes.
    apply (orphaned_run (nextBlot s) k es (submittedTwice k s) Hes).
    split; [exact Hfirst |]. split; [lia | exact Hnone].
Qed.

Lemma find_hasId_member d b :
  NoDup (blot_id <$> d) -> b ∈ d -> find (hasId (blot_id b)) d = Some b.
Proof.
  intros Hnd Hb.
  destruct (find (hasId (blot_id b)) d) as [b'|] eqn:Hf.
  - destruct (find_hasId _ _ _ Hf) as [Hb' E].
    f_equal. by apply (NoDup_ids_inj d).
  - exfalso. clear Hnd. induction d as [|x d IH]; [by apply elem_of_nil in Hb |].
    simpl in Hf. destruct (hasId (blot_id b) x) eqn:Hh; [done |].
    apply elem_of_cons in Hb as [->|Hb]; [| by apply IH].
    apply hasId_false in Hh. done.
Qed.

(** C10.  The hook armed by [createLoadingEmbed k] deletes the entry
    stored under [k] without looking at which blot it points to: after
    two creations under [k] the entry is the second blot; removing the
    first, orphaned placeholder from the document fires its hook, and
    the entry is gone while the second placeholder is still in the
    document, loading and unresolved. *)
Theorem orphan_removal_drops_live_entry
  (s : QuillEmbedModule) (k : LookupKey) :
  reachable s ->
  validSelection s ->
  let first := nextBlot s in
  let second := S (nextBlot s) in
  let s2 := submittedTwice k s in
  let s3 := step (Removed first) s2 in
  currentUploads s2 !! k = Some second /\
  second <> first /\
  fst (quill_remove first s2) = Normal tt /\
  currentUploads s3 !! k = None /\
  placeholder second k ∈ document s3 /\
  placeholder first k ∉ document s3.
Proof.
  intros Hr Hv. cbv zeta.
  pose proof (reachable_wellFormed _ Hr) as Hwf.
  destruct (submittedTwice_state k s Hwf Hv) as (_ & _ & _ & Hn & Hm & Hd).
  assert (Hwf2 : wellFormed (submittedTwice k s))
    by (unfold submittedTwice; by do 2 apply wellFormed_createLoadingEmbed).
  assert (Hfirst : placeholder (nextBlot s) k ∈ document (submittedTwice k s)).
  { rewrite Hd. apply elem_of_insertAt. right. apply elem_of_insertAt. by left. }
  pose proof (find_hasId_member _ _ (wf_unique _ Hwf2) Hfirst) as Hf. cbn in Hf.
  destruct (deletion_hook_removes_key _ _ k _ Hf eq_refl) as [Hret Hgone].
  split; [rewrite Hm; apply lookup_insert_eq |].
  split; [lia |]. split; [exact Hret |]. split; [exact Hgone |].
  unfold step. cbn [handle].
  destruct (quill_remove_found _ _ _ Hf) as (s' & -> & Hd' & _). cbn [snd].
  rewrite Hd'. split.
  - apply removeBlot_keeps; [| cbn; lia].
    rewrite Hd. apply elem_of_insertAt. by left.
  - intros Hin.
    destruct (removeBlot_NoDup (nextBlot s) _ (wf_unique _ Hwf2)) as [_ Hne].
    by apply (Hne _ Hin).
Qed.

(** ** The registry invariant *)

Lemma live_false k s b :
  live k s = false -> b ∈ document s -> deleteCallback b <> Some k.
Proof.
  unfold live. induction (document s) as [|x d IH]; simpl;
    [by intros _ ?%elem_of_nil |].
  intros [Hx Hd]%orb_false_iff [->|Hb]%elem_of_cons; [| by apply IH].
  by apply bool_decide_eq_false in Hx.
Qed.

Lemma armedRegistered_sameContent s s' :
  sameContent s s' -> armedRegistered s -> armedRegistered s'.
Proof.
  intros (Hd & _ & Hm) H. unfold armedRegistered. by rewrite Hd, Hm.
Qed.

Lemma armedRegistered_resolved k v s :
  wellFormed s -> armedRegistered s -> armedRegistered (resolved k v s).
Proof.
  intros Hwf Har b k' Hin Hcb. cbn in *.
  assert (b ∈ document s /\ k' <> k) as [Hp Hne].
  { destruct (currentUploads s !! k) as [t|] eqn:Hk.
    - destruct (replaceBlot_NoDup t (created v s) (document s)
                  (wf_unique _ Hwf) (fresh_not_in _ Hwf)) as [_ Hel].
      destruct (Hel _ Hin) as [-> | [Hp Hid]]; [discriminate Hcb |].
      split; [exact Hp |]. intros ->.
      apply Har in Hcb; [| exact Hp]. rewrite Hk in Hcb.
      injection Hcb as ->. by apply Hid.
    - split; [exact Hin |]. intros ->. apply Har in Hcb; [| exact Hin].
      congruence. }
  rewrite lookup_delete_ne by done. by apply Har.
Qed.

Lemma armedRegistered_createLoadingEmbed k s :
  wellFormed s -> armedRegistered s -> live k s = false ->
  armedRegistered (snd (createLoadingEmbed k s)).
Proof.
  intros Hwf Har Hl b k' Hin Hcb.
  destruct (le_lt_dec (index (lastSelection s)) (length (document s))) as [Hv|Hv].
  - rewrite createLoadingEmbed_wellFormed_valid in * by assumption. cbn in *.
    apply elem_of_insertAt in Hin as [->|Hin].
    + cbn in *. injection Hcb as ->. apply lookup_insert_eq.
    + rewrite lookup_insert_ne; [by apply Har |].
      intros ->. by apply (live_false _ _ _ Hl Hin).
  - rewrite createLoadingEmbed_invalid in * by assumption. cbn in *.
    apply elem_of_insertAt in Hin as [->|Hin]; [discriminate Hcb | by apply Har].
Qed.

Lemma armedRegistered_createErrorEmbed k e s :
  wellFormed s -> armedRegistered s ->
  armedRegistered (snd (createErrorEmbed k e s)).
Proof.
  intros Hwf Har. destruct (isNullish k) eqn:Hn.
  - rewrite createErrorEmbed_nullish by done. intros b k' Hin Hcb. cbn in *.
    apply elem_of_insertAt in Hin as [->|Hin]; [discriminate Hcb | by apply Har].
  - rewrite createErrorEmbed_resolved by done. cbn [snd].
    apply armedRegistered_resolved; [by apply wellFormed_with_errorLog |].
    revert Har. apply armedRegistered_sameContent. by repeat split.
Qed.

Lemma armedRegistered_quill_remove t s :
  wellFormed s -> armedRegistered s ->
  armedRegistered (snd (quill_remove t s)).
Proof.
  intros Hwf Har. destruct (find (hasId t) (document s)) as [b0|] eqn:Hf.
  - destruct (quill_remove_found _ _ _ Hf) as (s' & -> & Hd & _ & Hm & _).
    destruct (find_hasId _ _ _ Hf) as [Hb0 Hid0].
    destruct (removeBlot_NoDup t _ (wf_unique _ Hwf)) as [_ Hne].
    intros b k Hin Hcb. cbn in *. rewrite Hd in Hin. rewrite Hm.
    pose proof (Hne _ Hin) as Hid.
    apply removeBlot_elem in Hin. pose proof (Har _ _ Hin Hcb) as Hk.
    destruct (deleteCallback b0) as [k0|] eqn:Hcb0; [| exact Hk].
    rewrite lookup_delete_ne; [exact Hk |]. intros ->.
    pose proof (Har _ _ Hb0 Hcb0) as Hk0. congruence.
  - by rewrite quill_remove_absent.
Qed.

Lemma armedRegistered_step e s :
  wellFormed s -> armedRegistered s ->
  match submits e with Some k => live k s = false | None => True end ->
  armedRegistered (step e s).
Proof.
  intros Hwf Har Hsub. unfold step.
  destruct e as [u|u [r|err]|file|file resp|file err|t|r]; cbn [handle submits] in *.
  - by apply armedRegistered_createLoadingEmbed.
  - rewrite scrapeMedia_settled_Fulfilled, scrapeMedia_then_cases.
    destruct (String.eqb (type r) "site"); [by apply armedRegistered_resolved |].
    destruct (String.eqb (type r) "image"); [by apply armedRegistered_resolved |].
    cbn [snd]. apply armedRegistered_resolved; [by apply wellFormed_with_errorLog |].
    revert Har. apply armedRegistered_sameContent. by repeat split.
  - cbn [scrapeMedia_settled]. rewrite scrapeMedia_catch_reported. cbn [snd].
    apply armedRegistered_resolved; [by apply wellFormed_with_errorLog |].
    revert Har. apply armedRegistered_sameContent. by repeat split.
  - by apply armedRegistered_createLoadingEmbed.
  - rewrite onImageUploadSuccess_resolved. by apply armedRegistered_resolved.
  - by apply armedRegistered_createErrorEmbed.
  - by apply armedRegistered_quill_remove.
  - destruct (quill_select_sameContent r s) as (s' & -> & Hs & _).
    by apply (armedRegistered_sameContent s).
Qed.

Lemma armedRegistered_run es s :
  wellFormed s -> armedRegistered s -> noDuplicateSubmission es s = true ->
  armedRegistered (run es s).
Proof.
  revert s. induction es as [|e es IH]; intros s Hwf Har Hnd; cbn in *; [done |].
  apply andb_true_iff in Hnd as [He Hes].
  apply IH; [by apply wellFormed_step | | exact Hes].
  apply armedRegistered_step; [done | done |].
  destruct (submits e); [| done]. by apply negb_true_iff.
Qed.

(** C2, as amended.  In every reachable state: a key has at most one
    entry; an entry points at a loading blot that is in the document,
    neither resolved nor removed, and armed under the entry's key;
    removing an armed placeholder from outside leaves no entry under its
    key.  Conversely, the key of every armed placeholder in the document
    has an entry, pointing at it, provided no placeholder was ever
    created under a key while another one armed under that key was in
    the document. *)
Theorem registry_invariant (es : list event) :
  let s := run es initial in
  (forall k id id',
     currentUploads s !! k = Some id -> currentUploads s !! k = Some id' ->
     id = id') /\
  (forall k id,
     currentUploads s !! k = Some id -> placeholder id k ∈ document s) /\
  (forall t b k,
     find (hasId t) (document s) = Some b -> deleteCallback b = Some k ->
     currentUploads (step (Removed t) s) !! k = None) /\
  (noDuplicateSubmission es initial = true ->
   forall id k,
     placeholder id k ∈ document s -> currentUploads s !! k = Some id).
Proof.
  cbv zeta.
  assert (Hwf : wellFormed (run es initial))
    by apply wellFormed_run, wellFormed_initial.
  split; [intros k id id' H1 H2; congruence |].
  split; [apply (wf_registered _ Hwf) |].
  split.
  - intros t b k Hf Hcb. by apply (deletion_hook_removes_key t b k).
  - intros Hnd id k Hin.
    apply (armedRegistered_run es initial wellFormed_initial) in Hnd.
    + by apply (Hnd _ _ Hin).
    + intros b k' Hb. by apply elem_of_nil in Hb.
Qed.

(** C2, the claim as stated fails: the same URL is submitted twice and
    the first placeholder is then removed; its hook drops the entry, and
    the second placeholder is in the document, loading, with no entry
    under its key. *)
Lemma live_placeholder_without_entry :
  let es := [Scrape "http://a.test"; Scrape "http://a.test"; Removed 0] in
  let s := run es initial in
  placeholder 1 (KUrl "http://a.test") ∈ document s /\
  currentUploads s !! KUrl "http://a.test" = None /\
  ~ presentIffLive s.
Proof.
  cbv zeta.
  assert (Hin : placeholder 1 (KUrl "http://a.test") ∈
                document (run [Scrape "http://a.test"; Scrape "http://a.test";
                               Removed 0] initial))
    by (apply elem_of_cons; by left).
  split; [exact Hin |]. split; [reflexivity |].
  intros H. destruct (H (KUrl "http://a.test")) as [_ Hback].
  destruct Hback as [id Hid]; [by exists 1 |]. discriminate Hid.
Qed.

(** ** The statements at concrete inputs *)

Lemma reachable_scraping : reachable scraping.
Proof. by exists [Scrape "http://a.test"]. Defined.

Lemma scrape_fulfilled_builds_mapped_embed_witness :
  reachable scraping /\
  type sitePage = "site" /\
  type picture = "image" /\
  resolves (KUrl (url sitePage))
    (EmbedLink (url sitePage) (name sitePage) (photoUrl sitePage) (body sitePage))
    scraping
    (scrapeMedia_settled "http://a.test" (Fulfilled sitePage) scraping) /\
  resolves (KUrl (url picture))
    (EmbedImage (photoUrl picture) (Some (name picture))) scraping
    (scrapeMedia_settled "http://a.test" (Fulfilled picture) scraping).
Proof.
  split; [exact reachable_scraping |].
  split; [reflexivity |]. split; [reflexivity |].
  exact (scrape_fulfilled_builds_mapped_embed scraping "http://a.test"
           sitePage picture reachable_scraping eq_refl eq_refl).
Defined.

Lemma unknownKind_not_site : type unknownKind <> "site".
Proof. intros H. discriminate H. Defined.

Lemma unknownKind_not_image : type unknownKind <> "image".
Proof. intros H. discriminate H. Defined.

Lemma scrape_unsupported_type_resolves_error_witness :
  reachable scraping /\
  type unknownKind <> "site" /\
  type unknownKind <> "image" /\
  resolves (KUrl "http://a.test")
    (EmbedError [new_Error "That type of embed is not currently supported."])
    scraping
    (scrapeMedia_settled "http://a.test" (Fulfilled unknownKind) scraping) /\
  errorLog (snd (scrapeMedia_settled "http://a.test" (Fulfilled unknownKind) scraping)) =
    errorLog scraping ++ ["That type of embed is not currently supported."].
Proof.
  split; [exact reachable_scraping |].
  split; [exact unknownKind_not_site |]. split; [exact unknownKind_not_image |].
  exact (scrape_unsupported_type_resolves_error scraping "http://a.test"
           unknownKind reachable_scraping unknownKind_not_site
           unknownKind_not_image).
Defined.

Lemma failed_to_load_not_empty : "Failed to load URL: x" <> "".
Proof. intros H. discriminate H. Defined.

Lemma scrape_rejected_reports_server_message_witness :
  reachable scraping /\
  "Failed to load URL: x" <> "" /\
  resolves (KUrl "http://a.test")
    (EmbedError [new_Error (shown "Failed to load URL: x")]) scraping
    (scrapeMedia_settled "http://a.test"
       (Rejected (rejection "Request failed" "Failed to load URL: x")) scraping) /\
  errorLog
    (snd (scrapeMedia_settled "http://a.test"
            (Rejected (rejection "Request failed" "Failed to load URL: x"))
            scraping)) =
    errorLog scraping ++ [shown "Failed to load URL: x"].
Proof.
  split; [exact reachable_scraping |].
  split; [exact failed_to_load_not_empty |].
  exact (scrape_rejected_reports_server_message scraping "http://a.test"
           "Request failed" "Failed to load URL: x" reachable_scraping
           failed_to_load_not_empty).
Defined.

Lemma uploadUndone_absent : currentUploads uploadUndone !! KFile 7 = None.
Proof. reflexivity. Defined.

Lemma late_success_is_discarded_witness :
  currentUploads uploadUndone !! KFile 7 = None /\
  (forall response,
     silentNoOp uploadUndone (onImageUploadSuccess (KFile 7) response uploadUndone)) /\
  (forall u r,
     KUrl (url r) = KFile 7 ->
     silentNoOp uploadUndone (createSiteEmbed r uploadUndone) /\
     silentNoOp uploadUndone (createExternalImageEmbed r uploadUndone) /\
     (type r = "site" \/ type r = "image" ->
      silentNoOp uploadUndone (scrapeMedia_settled u (Fulfilled r) uploadUndone))).
Proof.
  split; [exact uploadUndone_absent |].
  exact (late_success_is_discarded uploadUndone (KFile 7) uploadUndone_absent).
Defined.

Lemma late_error_is_logged_only_witness :
  currentUploads uploadUndone !! KFile 7 = None /\
  fst (createErrorEmbed (KFile 7) (new_Error "Upload failed") uploadUndone) =
    Normal tt /\
  errorLog (snd (createErrorEmbed (KFile 7) (new_Error "Upload failed") uploadUndone)) =
    errorLog uploadUndone ++ ["Upload failed"] /\
  currentUploads (snd (createErrorEmbed (KFile 7) (new_Error "Upload failed") uploadUndone)) =
    currentUploads uploadUndone /\
  document (snd (createErrorEmbed (KFile 7) (new_Error "Upload failed") uploadUndone)) =
    document uploadUndone.
Proof.
  split; [exact uploadUndone_absent |].
  exact (late_error_is_logged_only uploadUndone (KFile 7)
           (new_Error "Upload failed") uploadUndone_absent).
Defined.

Lemma reachable_initial : reachable initial.
Proof. by exists []. Defined.

Lemma validSelection_initial : validSelection initial.
Proof. apply le_n. Defined.

Lemma duplicate_submission_last_write_wins_witness :
  reachable initial /\
  validSelection initial /\
  let k := KUrl "http://a.test" in
  let s1 := snd (createLoadingEmbed k initial) in
  let s2 := submittedTwice k initial in
  fst (createLoadingEmbed k initial) = Normal tt /\
  fst (createLoadingEmbed k s1) = Normal tt /\
  currentUploads s1 !! k = Some 0 /\
  currentUploads s2 !! k = Some 1 /\
  (forall id, currentUploads s2 !! k = Some id -> id = 1) /\
  (forall k', currentUploads s2 !! k' <> Some 0) /\
  placeholder 0 k ∈ document s2 /\
  placeholder 1 k ∈ document s2 /\
  (forall es, Removed 0 ∉ es -> placeholder 0 k ∈ document (run es s2)).
Proof.
  split; [exact reachable_initial |]. split; [exact validSelection_initial |].
  exact (duplicate_submission_last_write_wins initial (KUrl "http://a.test")
           reachable_initial validSelection_initial).
Defined.

Lemma orphan_removal_drops_live_entry_witness :
  reachable initial /\
  validSelection initial /\
  let k := KUrl "http://a.test" in
  let s2 := submittedTwice k initial in
  let s3 := step (Removed 0) s2 in
  currentUploads s2 !! k = Some 1 /\
  1 <> 0 /\
  fst (quill_remove 0 s2) = Normal tt /\
  currentUploads s3 !! k = None /\
  placeholder 1 k ∈ document s3 /\
  placeholder 0 k ∉ document s3.
Proof.
  split; [exact reachable_initial |]. split; [exact validSelection_initial |].
  exact (orphan_removal_drops_live_entry initial (KUrl "http://a.test")
           reachable_initial validSelection_initial).
Defined.

Lemma registry_invariant_witness :
  noDuplicateSubmission distinctKeys initial = true /\
  let s := run distinctKeys initial in
  (forall k id id',
     currentUploads s !! k = Some id -> currentUploads s !! k = Some id' ->
     id = id') /\
  (forall k id,
     currentUploads s !! k = Some id -> placeholder id k ∈ document s) /\
  (forall t b k,
     find (hasId t) (document s) = Some b -> deleteCallback b = Some k ->
     currentUploads (step (Removed t) s) !! k = None) /\
  (noDuplicateSubmission distinctKeys initial = true ->
   forall id k,
     placeholder id k ∈ document s -> currentUploads s !! k = Some id).
Proof.
  split; [reflexivity |].
  exact (registry_invariant distinctKeys).
Defined.

(** ** Further properties of the handlers *)

Lemma armBlot_length t k d : length (armBlot t k d) = length d.
Proof.
  rewrite <- (length_fmap blot_id (armBlot t k d)), armBlot_ids.
  apply length_fmap.
Qed.

Lemma replaceBlot_length t r d : length (replaceBlot t r d) = length d.
Proof.
  induction d as [|b d IH]; simpl; [done |].
  destruct (hasId t b); simpl; [done | by rewrite IH].
Qed.

Lemma removeBlot_length t d :
  length (removeBlot t d) =
  if existsb (hasId t) d then pred (length d) else length d.
Proof.
  induction d as [|b d IH]; simpl; [done |].
  destruct (hasId t b); simpl; [done |].
  rewrite IH. destruct (existsb (hasId t) d) eqn:He; [| done].
  destruct d; [discriminate He | done].
Qed.

Lemma find_existsb t d :
  existsb (hasId t) d =
  match find (hasId t) d with Some _ => true | None => false end.
Proof.
  induction d as [|b d IH]; simpl; [done |].
  destruct (hasId t b); simpl; [done | exact IH].
Qed.

(** The two ways [createLoadingEmbed] ends. *)
Lemma createLoadingEmbed_cases k s :
  (validSelection s /\
   createLoadingEmbed k s =
   (Normal tt,
    {| document := armBlot (nextBlot s) k
                     (insertAt (index (lastSelection s))
                        (created EmbedLoading s) (document s));
       selection := Some {| index := index (lastSelection s) + 1; length_ := 0 |};
       nextBlot := S (nextBlot s);
       currentUploads := <[k := nextBlot s]> (currentUploads s);
       lastSelection := lastSelection s;
       pauseSelectionTracking := false;
       errorLog := errorLog s |})) \/
  (length (document s) < index (lastSelection s) /\
   createLoadingEmbed k s =
   (Throw TypeError,
    {| document := insertAt (index (lastSelection s))
                     (created EmbedLoading s) (document s);
       selection := Some {| index := index (lastSelection s) + 1; length_ := 0 |};
       nextBlot := S (nextBlot s);
       currentUploads := currentUploads s;
       lastSelection := lastSelection s;
       pauseSelectionTracking := true;
       errorLog := errorLog s |})).
Proof.
  destruct (le_lt_dec (index (lastSelection s)) (length (document s))) as [Hv|Hv].
  - left. split; [exact Hv | by apply createLoadingEmbed_valid].
  - right. split; [exact Hv | by apply createLoadingEmbed_invalid].
Qed.

Lemma with_errorLog_same s : with_errorLog (errorLog s) s = s.
Proof. by destruct s. Qed.

(** A resolution turn is [resolved] under its key, after the log was
    written. *)
Lemma resolution_step e k s :
  resolutionKey e = Some k ->
  exists v, step e s = resolved k v (with_errorLog (errorLog s ++ logged e) s).
Proof.
  unfold step.
  destruct e as [u|u [r|err]|file|file resp|file err|t|r];
    cbn [resolutionKey handle logged]; try discriminate.
  - rewrite scrapeMedia_settled_Fulfilled, scrapeMedia_then_cases.
    destruct (String.eqb (type r) "site"); cbn [orb].
    { intros [= <-]. eexists. cbn [snd]. by rewrite app_nil_r, with_errorLog_same. }
    destruct (String.eqb (type r) "image"); cbn [orb].
    { intros [= <-]. eexists. cbn [snd]. by rewrite app_nil_r, with_errorLog_same. }
    intros [= <-]. by eexists.
  - intros [= <-]. cbn [scrapeMedia_settled].
    rewrite scrapeMedia_catch_reported. by eexists.
  - intros [= <-]. rewrite onImageUploadSuccess_resolved.
    eexists. cbn [snd]. by rewrite app_nil_r, with_errorLog_same.
  - destruct (isNullish file) eqn:Hn; [discriminate |]. intros [= <-].
    rewrite createErrorEmbed_resolved by done. by eexists.
Qed.


(** X2.  When [createLoadingEmbed] throws, which it does after the
    insertion, the registry is as before, the blot it added carries no
    hook, and [pauseSelectionTracking] is left set: from then on
    [handleEditorChange] ignores every notification. *)
Theorem createLoadingEmbed_throw_pauses_tracking
  (s : QuillEmbedModule) (k : LookupKey) (e : Error) :
  fst (createLoadingEmbed k s) = Throw e ->
  let s' := snd (createLoadingEmbed k s) in
  pauseSelectionTracking s' = true /\
  currentUploads s' = currentUploads s /\
  document s' =
    insertAt (index (lastSelection s)) (created EmbedLoading s) (document s) /\
  (forall ty a, handleEditorChange ty a s' = (Normal tt, s')).
Proof.
  cbv zeta. destruct (createLoadingEmbed_cases k s) as [[_ ->] | [_ ->]]; cbn;
    [discriminate |].
  intros _. repeat split. intros ty a. by destruct a.
Qed.

Lemma quill_select_tracking r s :
  pauseSelectionTracking s = false ->
  quill_select r s =
  (Normal tt,
   match r with
   | Some r' => with_lastSelection r' (with_selection r s)
   | None => with_selection r s
   end).
Proof.
  intros Hp. unfold quill_select, handleEditorChange, bind, modify, get, ret.
  cbn. rewrite Hp. by destruct r.
Qed.

(** X3.  With tracking on, [lastSelection] remembers the last selection
    the editor reported: over any sequence of selection changes it ends
    as the last range among them, a lost focus leaving it where it was;
    the document and the registry are not touched. *)
Theorem lastSelection_follows_selection
  (s : QuillEmbedModule) (rs : list (option RangeStatic)) :
  pauseSelectionTracking s = false ->
  let s' := run (Selected <$> rs) s in
  lastSelection s' = lastRange rs (lastSelection s) /\
  pauseSelectionTracking s' = false /\
  document s' = document s /\
  currentUploads s' = currentUploads s.
Proof.
  cbv zeta. revert s. induction rs as [|r rs IH]; intros s Hp; [done |].
  rewrite fmap_cons. cbn [run].
  assert (Hs : step (Selected r) s =
               match r with
               | Some r' => with_lastSelection r' (with_selection r s)
               | None => with_selection r s
               end)
    by (unfold step; cbn [handle]; by rewrite quill_select_tracking).
  rewrite Hs. destruct r as [r'|].
  - destruct (IH (with_lastSelection r' (with_selection (Some r') s)) Hp)
      as (H1 & H2 & H3 & H4).
    rewrite H1, H2, H3, H4. by repeat split.
  - destruct (IH (with_selection None s) Hp) as (H1 & H2 & H3 & H4).
    rewrite H1, H2, H3, H4. by repeat split.
Qed.

Lemma resolved_length k v s :
  length (document (resolved k v s)) = length (document s).
Proof.
  cbn. destruct (currentUploads s !! k); [apply replaceBlot_length | done].
Qed.

(** X4.  Operations in flight are kept apart by their keys: a turn
    changes no entry other than that of the key it creates under,
    resolves, or whose hook it fires, and the placeholder of every other
    key stays in the document. *)
Theorem other_keys_untouched
  (e : event) (s : QuillEmbedModule) (k : LookupKey) :
  reachable s ->
  touched e s <> Some k ->
  currentUploads (step e s) !! k = currentUploads s !! k /\
  (forall id, currentUploads s !! k = Some id ->
              placeholder id k ∈ document (step e s)).
Proof.
  intros Hwf%reachable_wellFormed Ht.
  assert (H : currentUploads (step e s) !! k = currentUploads s !! k).
  { destruct (resolutionKey e) as [k0|] eqn:Hr.
    - destruct (resolution_step e k0 s Hr) as [v ->]. cbn.
      apply lookup_delete_ne. intros ->. apply Ht.
      destruct e as [u|u r|file|file resp|file err|t|r]; cbn in *;
        try discriminate; by rewrite Hr.
    - unfold step.
      destruct e as [u|u [r|err]|file|file resp|file err|t|r];
        cbn [resolutionKey touched handle] in *; try discriminate.
      + unfold scrapeMedia.
        destruct (createLoadingEmbed_cases (KUrl u) s) as [[_ ->] | [_ ->]];
          cbn; [| done].
        apply lookup_insert_ne. congruence.
      + destruct (String.eqb (type r) "site" || String.eqb (type r) "image");
          discriminate.
      + destruct (createLoadingEmbed_cases file s) as [[_ ->] | [_ ->]];
          cbn; [| done].
        apply lookup_insert_ne. congruence.
      + destruct (isNullish file) eqn:Hn; [| discriminate].
        by rewrite createErrorEmbed_nullish.
      + destruct (find (hasId t) (document s)) as [b|] eqn:Hf.
        * destruct (quill_remove_found _ _ _ Hf) as (s' & -> & _ & _ & Hm & _).
          cbn. rewrite Hm. destruct (deleteCallback b) as [k0|]; [| done].
          apply lookup_delete_ne. congruence.
        * by rewrite quill_remove_absent.
      + destruct (quill_select_sameContent r s) as (s' & -> & (_ & _ & Hm) & _).
        cbn. by rewrite Hm. }
  split; [exact H |]. intros id Hid.
  apply (wf_registered _ (wellFormed_step e s Hwf)). by rewrite H.
Qed.

(** X5.  How each turn changes the size of the document: creating a
    placeholder adds one blot, also when the call throws; an error
    without a key adds one; a removal takes one out if the blot is
    there; every resolution under a key, and every selection change,
    leaves the size as it was: a result never enters the document except
    in place of a placeholder. *)
Theorem document_size_accounting (e : event) (s : QuillEmbedModule) :
  length (document (step e s)) =
  match e with
  | Scrape _ | UploadStart _ => S (length (document s))
  | UploadFailure file _ =>
    if isNullish file then S (length (document s)) else length (document s)
  | Removed target =>
    if existsb (hasId target) (document s)
    then pred (length (document s))
    else length (document s)
  | Settled _ _ | UploadSuccess _ _ | Selected _ => length (document s)
  end.
Proof.
  destruct (resolutionKey e) as [k0|] eqn:Hr.
  - destruct (resolution_step e k0 s Hr) as [v ->].
    rewrite resolved_length. cbn.
    destruct e as [u|u r|file|file resp|file err|t|r]; cbn in Hr;
      try discriminate; try done.
    by destruct (isNullish file).
  - unfold step.
    destruct e as [u|u [r|err]|file|file resp|file err|t|r];
      cbn [resolutionKey handle] in *; try discriminate.
    + unfold scrapeMedia.
      destruct (createLoadingEmbed_cases (KUrl u) s) as [[_ ->] | [_ ->]]; cbn;
        by rewrite ?armBlot_length, insertAt_length.
    + destruct (String.eqb (type r) "site" || String.eqb (type r) "image");
        discriminate.
    + destruct (createLoadingEmbed_cases file s) as [[_ ->] | [_ ->]]; cbn;
        by rewrite ?armBlot_length, insertAt_length.
    + destruct (isNullish file) eqn:Hn; [| discriminate].
      rewrite createErrorEmbed_nullish by done. cbn. apply insertAt_length.
    + rewrite find_existsb.
      destruct (find (hasId t) (document s)) as [b|] eqn:Hf.
      * destruct (quill_remove_found _ _ _ Hf) as (s' & -> & Hd & _).
        cbn. rewrite Hd, removeBlot_length, find_existsb. by rewrite Hf.
      * by rewrite quill_remove_absent.
    + destruct (quill_select_sameContent r s) as (s' & -> & (Hd & _) & _).
      cbn. by rewrite Hd.
Qed.

(** X6.  A second resolution under the same key is discarded: once a
    turn has resolved [k], the entry is gone, and any further resolution
    under [k], success or error, changes neither the document nor the
    registry. *)
Theorem repeated_resolution_is_discarded
  (e1 e2 : event) (k : LookupKey) (s : QuillEmbedModule) :
  resolutionKey e1 = Some k ->
  resolutionKey e2 = Some k ->
  let s1 := step e1 s in
  currentUploads s1 !! k = None /\
  document (step e2 s1) = document s1 /\
  currentUploads (step e2 s1) = currentUploads s1.
Proof.
  intros H1 H2. cbv zeta.
  destruct (resolution_step e1 k s H1) as [v1 ->].
  destruct (resolution_step e2 k
              (resolved k v1 (with_errorLog (errorLog s ++ logged e1) s)) H2)
    as [v2 ->].
  cbn. rewrite lookup_delete_eq. split; [done |]. split; [done |].
  apply delete_id, lookup_delete_eq.
Qed.

(** X7.  What is logged does not depend on the registry or the document:
    a rejected scrape logs the message it reports, an unsupported type
    logs its message, a failed upload logs the error's message, each
    exactly once, appended to the log; no other turn logs anything. *)
Theorem errorLog_accounting (e : event) (s : QuillEmbedModule) :
  errorLog (step e s) = errorLog s ++ logged e.
Proof.
  destruct (resolutionKey e) as [k0|] eqn:Hr.
  - by destruct (resolution_step e k0 s Hr) as [v ->].
  - unfold step.
    destruct e as [u|u [r|err]|file|file resp|file err|t|r];
      cbn [resolutionKey handle logged] in *; try discriminate;
      rewrite ?app_nil_r.
    + unfold scrapeMedia.
      by destruct (createLoadingEmbed_cases (KUrl u) s) as [[_ ->] | [_ ->]].
    + destruct (String.eqb (type r) "site" || String.eqb (type r) "image");
        discriminate.
    + by destruct (createLoadingEmbed_cases file s) as [[_ ->] | [_ ->]].
    + destruct (isNullish file) eqn:Hn; [| discriminate].
      by rewrite createErrorEmbed_nullish.
    + destruct (find (hasId t) (document s)) as [b|] eqn:Hf.
      * destruct (quill_remove_found _ _ _ Hf) as (s' & -> & _ & _ & _ & Hl).
        cbn. by rewrite Hl.
      * by rewrite quill_remove_absent.
    + destruct (quill_select_sameContent r s) as (s' & -> & _ & Hl).
      cbn. by rewrite Hl.
Qed.


(** ** Whole flows *)

Lemma removeBlot_app_miss t d1 d2 :
  (forall b, b ∈ d1 -> blot_id b <> t) ->
  removeBlot t (d1 ++ d2) = d1 ++ removeBlot t d2.
Proof.
  induction d1 as [|b d1 IH]; simpl; [done |].
  intros H.
  assert (Hb : hasId t b = false)
    by (apply hasId_false, H; by apply elem_of_cons; left).
  rewrite Hb. f_equal. apply IH. intros ? ?. apply H. by apply elem_of_cons; right.
Qed.

Lemma removeBlot_insertAt i b d :
  (forall x, x ∈ d -> blot_id x <> blot_id b) ->
  removeBlot (blot_id b) (insertAt i b d) = d.
Proof.
  intros H. unfold insertAt. rewrite removeBlot_app_miss.
  - simpl. unfold hasId. rewrite Nat.eqb_refl. apply take_drop.
  - intros x Hx. apply H. by apply (subseteq_take i d).
Qed.

Lemma replaceBlot_insertAt i b r d :
  (forall x, x ∈ d -> blot_id x <> blot_id b) ->
  replaceBlot (blot_id b) r (insertAt i b d) = insertAt i r d.
Proof.
  intros H. unfold insertAt. rewrite replaceBlot_app_miss.
  - simpl. unfold hasId. by rewrite Nat.eqb_refl.
  - intros x Hx. apply H. by apply (subseteq_take i d).
Qed.

Lemma fresh_differs s x :
  wellFormed s -> x ∈ document s -> blot_id x <> nextBlot s.
Proof. intros Hwf Hx%(wf_fresh _ Hwf). lia. Qed.

(** Creating a placeholder under [k] and then resolving [k] amounts to
    inserting the result node where the caret was. *)
Lemma create_then_resolved k v l s :
  wellFormed s -> validSelection s ->
  document (resolved k v (with_errorLog l (snd (createLoadingEmbed k s)))) =
    insertAt (index (lastSelection s))
      {| blot_id := S (nextBlot s); blot_value := v; deleteCallback := None |}
      (document s) /\
  currentUploads (resolved k v (with_errorLog l (snd (createLoadingEmbed k s)))) =
    delete k (currentUploads s).
Proof.
  intros Hwf Hv. rewrite createLoadingEmbed_wellFormed_valid by assumption.
  cbn. rewrite lookup_insert_eq. split; [| apply delete_insert_eq].
  apply (replaceBlot_insertAt _ (placeholder (nextBlot s) k)).
  intros x Hx. by apply fresh_differs.
Qed.

(** X9.  An upload from start to finish: the placeholder created for the
    file and the node that replaces it leave the document as if the
    result had been inserted at the caret directly: the image built from
    [response.data.url] on success, the error node on failure; the file
    has no entry afterwards. *)
Theorem upload_flow_inserts_at_caret
  (s : QuillEmbedModule) (file : LookupKey)
  (response : UploadResponse) (error : Error) :
  reachable s ->
  validSelection s ->
  isNullish file = false ->
  let node v :=
    {| blot_id := S (nextBlot s); blot_value := v; deleteCallback := None |} in
  let succeeded := run [UploadStart file; UploadSuccess file response] s in
  let failed := run [UploadStart file; UploadFailure file error] s in
  document succeeded =
    insertAt (index (lastSelection s))
      (node (EmbedImage (upload_url response) None)) (document s) /\
  currentUploads succeeded = delete file (currentUploads s) /\
  document failed =
    insertAt (index (lastSelection s)) (node (EmbedError [error])) (document s) /\
  currentUploads failed = delete file (currentUploads s).
Proof.
  intros Hwf%reachable_wellFormed Hv Hn. cbv zeta. cbn [run].
  unfold step. cbn [handle].
  rewrite onImageUploadSuccess_resolved, createErrorEmbed_resolved by done.
  cbn [snd].
  destruct (create_then_resolved file (EmbedImage (upload_url response) None)
              (errorLog (snd (createLoadingEmbed file s))) s Hwf Hv) as [H1 H2].
  rewrite with_errorLog_same in H1, H2.
  destruct (create_then_resolved file (EmbedError [error])
              (errorLog (snd (createLoadingEmbed file s)) ++ [message error])
              s Hwf Hv) as [H3 H4].
  by rewrite H1, H2, H3, H4.
Qed.

(** X10.  A scrape from submission to settlement, the response reporting
    the URL that was submitted: the document ends as if the result had
    been inserted at the caret directly: the link preview for a
    ["site"], the image for an ["image"], the error node for a rejection
    with a server message; the URL has no entry afterwards. *)
Theorem scrape_flow_inserts_at_caret
  (s : QuillEmbedModule) (u own_message msg : string)
  (site image : ScrapeResult) :
  reachable s ->
  validSelection s ->
  type site = "site" -> url site = u ->
  type image = "image" -> url image = u ->
  msg <> "" ->
  let node v :=
    {| blot_id := S (nextBlot s); blot_value := v; deleteCallback := None |} in
  let after r := run [Scrape u; Settled u r] s in
  document (after (Fulfilled site)) =
    insertAt (index (lastSelection s))
      (node (EmbedLink u (name site) (photoUrl site) (body site))) (document s) /\
  document (after (Fulfilled image)) =
    insertAt (index (lastSelection s))
      (node (EmbedImage (photoUrl image) (Some (name image)))) (document s) /\
  document (after (Rejected (rejection own_message msg))) =
    insertAt (index (lastSelection s))
      (node (EmbedError [new_Error (shown msg)])) (document s) /\
  (forall r, r = Fulfilled site \/ r = Fulfilled image \/
             r = Rejected (rejection own_message msg) ->
             currentUploads (after r) = delete (KUrl u) (currentUploads s)).
Proof.
  intros Hwf%reachable_wellFormed Hv Hts Hus Hti Hui Hm%String.eqb_neq.
  cbv zeta. cbn [run]. unfold step. cbn [handle]. unfold scrapeMedia.
  rewrite !scrapeMedia_settled_Fulfilled, !scrapeMedia_then_cases, Hts, Hti.
  cbn [String.eqb Ascii.eqb Bool.eqb snd]. rewrite Hus, Hui.
  assert (E : reported (rejection own_message msg) = new_Error (shown msg)).
  { unfold reported, rejection, shown. cbn [response]. rewrite Hm.
    by destruct (String.prefix _ msg). }
  set (s1 := snd (createLoadingEmbed (KUrl u) s)).
  destruct (create_then_resolved (KUrl u)
              (EmbedLink u (name site) (photoUrl site) (body site))
              (errorLog s1) s Hwf Hv) as [H1 H2].
  destruct (create_then_resolved (KUrl u)
              (EmbedImage (photoUrl image) (Some (name image)))
              (errorLog s1) s Hwf Hv) as [H3 H4].
  destruct (create_then_resolved (KUrl u) (EmbedError [new_Error (shown msg)])
              (errorLog s1 ++ [message (new_Error (shown msg))]) s Hwf Hv)
    as [H5 H6].
  fold s1 in H1, H2, H3, H4, H5, H6. rewrite with_errorLog_same in H1, H2, H3, H4.
  split; [exact H1 |]. split; [exact H3 |].
  split.
  - cbn [scrapeMedia_settled]. rewrite scrapeMedia_catch_reported, E. exact H5.
  - intros r [-> | [-> | ->]].
    + rewrite scrapeMedia_settled_Fulfilled, scrapeMedia_then_cases, Hts.
      cbn [String.eqb Ascii.eqb Bool.eqb snd]. by rewrite Hus.
    + rewrite scrapeMedia_settled_Fulfilled, scrapeMedia_then_cases, Hti.
      cbn [String.eqb Ascii.eqb Bool.eqb snd]. by rewrite Hui.
    + cbn [scrapeMedia_settled]. rewrite scrapeMedia_catch_reported, E. exact H6.
Qed.

(** X11.  With a nullish key [createErrorEmbed] never looks at the
    registry: when an upload was started under such a key and fails
    under it, the placeholder stays registered and loading, and the
    error node is put into the document beside it. *)
Theorem keyless_failure_leaves_placeholder
  (s : QuillEmbedModule) (k : LookupKey) (error : Error) :
  reachable s ->
  validSelection s ->
  isNullish k = true ->
  let s' := run [UploadStart k; UploadFailure k error] s in
  currentUploads s' !! k = Some (nextBlot s) /\
  placeholder (nextBlot s) k ∈ document s' /\
  {| blot_id := S (nextBlot s); blot_value := EmbedError [error];
     deleteCallback := None |} ∈ document s' /\
  length (document s') = S (S (length (document s))).
Proof.
  intros Hwf%reachable_wellFormed Hv Hn. cbv zeta. cbn [run].
  unfold step. cbn [handle].
  rewrite createErrorEmbed_nullish by done.
  rewrite createLoadingEmbed_wellFormed_valid by assumption. cbn.
  split; [apply lookup_insert_eq |].
  split; [apply elem_of_insertAt; right; apply elem_of_insertAt; by left |].
  split; [apply elem_of_insertAt; by left |].
  by rewrite !insertAt_length.
Qed.

(** X12.  Undoing a placeholder before its request settles: creating it
    and then removing it from the document gives back the document as
    it was, and the key has no entry. *)
Theorem placeholder_undo_restores_document
  (s : QuillEmbedModule) (k : LookupKey) :
  reachable s ->
  validSelection s ->
  let s' := run [UploadStart k; Removed (nextBlot s)] s in
  document s' = document s /\
  currentUploads s' = delete k (currentUploads s) /\
  errorLog s' = errorLog s.
Proof.
  intros Hwf%reachable_wellFormed Hv. cbv zeta. cbn [run].
  pose proof (wellFormed_createLoadingEmbed k s Hwf) as Hwf1.
  assert (E1 : step (UploadStart k) s = snd (createLoadingEmbed k s))
    by reflexivity.
  rewrite E1. clear E1.
  rewrite createLoadingEmbed_wellFormed_valid in * by assumption.
  cbn [snd] in *.
  set (s1 := {| document := insertAt (index (lastSelection s))
                              (placeholder (nextBlot s) k) (document s);
                selection := _; nextBlot := _; currentUploads := _;
                lastSelection := _; pauseSelectionTracking := _;
                errorLog := _ |}) in *.
  assert (Hf : find (hasId (nextBlot s)) (document s1) =
               Some (placeholder (nextBlot s) k)).
  { apply (find_hasId_member _ (placeholder (nextBlot s) k) (wf_unique _ Hwf1)).
    apply elem_of_insertAt. by left. }
  destruct (quill_remove_found _ _ _ Hf) as (s' & E & Hd & _ & Hm & Hl).
  assert (E2 : step (Removed (nextBlot s)) s1 = s')
    by (unfold step; cbn [handle]; by rewrite E).
  rewrite E2, Hd, Hm, Hl. cbn.
  split; [| split; [apply delete_insert_eq | done]].
  apply (removeBlot_insertAt _ (placeholder (nextBlot s) k)).
  intros x Hx. by apply fresh_differs.
Qed.

(** X13.  No placeholder is tracked under two keys: in every reachable
    state two entries of the registry that point at the same blot are
    the same entry. *)
Theorem registry_injective
  (s : QuillEmbedModule) (k k' : LookupKey) (id : nat) :
  reachable s ->
  currentUploads s !! k = Some id ->
  currentUploads s !! k' = Some id ->
  k = k'.
Proof.
  intros Hwf%reachable_wellFormed Hk Hk'.
  pose proof (wf_registered _ Hwf _ _ Hk) as Hp.
  pose proof (wf_registered _ Hwf _ _ Hk') as Hp'.
  pose proof (NoDup_ids_inj _ _ _ (wf_unique _ Hwf) Hp Hp' eq_refl) as E.
  by injection E.
Qed.

Lemma replaceBlot_again t r d :
  NoDup (blot_id <$> d) -> blot_id r ∉ (blot_id <$> d) -> blot_id r <> t ->
  replaceBlot t r (replaceBlot t r d) = replaceBlot t r d.
Proof.
  intros Hnd Hr Hne. apply replaceBlot_absent.
  destruct (replaceBlot_NoDup t r d Hnd Hr) as [_ Hel].
  intros (x & E & Hx)%list_elem_of_fmap.
  destruct (Hel x Hx) as [-> | [_ Hx']]; congruence.
Qed.

(** X14.  The earlier upload-failure handler and [createErrorEmbed] do
    the same whenever there is something to act on: for a nullish file,
    and for a file that still has its entry, [onImageUploadFailure]
    returns the state [createErrorEmbed] returns (its second
    [replaceWith] finds the loading blot already out of the document);
    they differ only when the entry is gone. *)
Theorem onImageUploadFailure_agrees_when_registered
  (s : QuillEmbedModule) (file : LookupKey) (error : Error) :
  reachable s ->
  isNullish file = true \/ is_Some (currentUploads s !! file) ->
  onImageUploadFailure file error s = createErrorEmbed file error s.
Proof.
  intros Hwf%reachable_wellFormed Hc.
  destruct (isNullish file) eqn:Hn.
  - unfold onImageUploadFailure, createErrorEmbed. by rewrite Hn.
  - destruct Hc as [? | [id Hid]]; [discriminate |].
    pose proof (wf_fresh _ Hwf _ (wf_registered _ Hwf _ _ Hid)) as Hlt.
    cbn in Hlt.
    rewrite createErrorEmbed_resolved by done.
    run_handler. rewrite Hn. cbn. rewrite Hid. cbn.
    rewrite replaceBlot_again; [done | apply (wf_unique _ Hwf) | |].
    + cbn. by apply fresh_not_in.
    + cbn. lia.
Qed.

(** X15.  [createVideoEmbed] builds one [embed-video] node from the whole
    scrape result and resolves the result's [url] with it: the
    placeholder registered under that URL is replaced in place, or, with
    no entry, nothing in the document changes; the entry is gone. *)
Theorem createVideoEmbed_resolves_response_url
  (s : QuillEmbedModule) (r : ScrapeResult) :
  reachable s ->
  resolves (KUrl (url r)) (EmbedVideo r) s (createVideoEmbed r s).
Proof.
  intros Hwf%reachable_wellFormed.
  rewrite createVideoEmbed_resolved. by apply resolved_resolves'.
Qed.

(** X16.  In the earlier revision a fulfilled scrape is resolved under
    the [url] of the response whatever its [type], and nothing is
    logged: a type that is neither ["site"] nor ["image"] yields one
    [embed-video] node built from the whole response, where the later
    revision yields the "not supported" error. *)
Theorem earlier_scrape_unknown_type_builds_video
  (s : QuillEmbedModule) (r : ScrapeResult) :
  reachable s ->
  type r <> "site" ->
  type r <> "image" ->
  resolves (KUrl (url r)) (EmbedVideo r) s (Earlier.scrapeMedia_then r s) /\
  errorLog (snd (Earlier.scrapeMedia_then r s)) = errorLog s.
Proof.
  intros Hwf%reachable_wellFormed Hs%String.eqb_neq Hi%String.eqb_neq.
  unfold Earlier.scrapeMedia_then. rewrite Hs, Hi, createVideoEmbed_resolved.
  split; [by apply resolved_resolves' | reflexivity].
Qed.

(** ** The further statements at concrete inputs *)

Lemma strayCaret_throws :
  fst (createLoadingEmbed (KUrl "http://a.test") strayCaret) = Throw TypeError.
Proof. reflexivity. Defined.

Lemma createLoadingEmbed_throw_pauses_tracking_witness :
  fst (createLoadingEmbed (KUrl "http://a.test") strayCaret) = Throw TypeError /\
  let s' := snd (createLoadingEmbed (KUrl "http://a.test") strayCaret) in
  pauseSelectionTracking s' = true /\
  currentUploads s' = currentUploads strayCaret /\
  document s' =
    insertAt (index (lastSelection strayCaret))
      (created EmbedLoading strayCaret) (document strayCaret) /\
  (forall ty a, handleEditorChange ty a s' = (Normal tt, s')).
Proof.
  split; [exact strayCaret_throws |].
  exact (createLoadingEmbed_throw_pauses_tracking strayCaret
           (KUrl "http://a.test") TypeError strayCaret_throws).
Defined.

Lemma lastSelection_follows_selection_witness :
  pauseSelectionTracking initial = false /\
  let rs := [Some {| index := 3; length_ := 0 |}; None] in
  let s' := run (Selected <$> rs) initial in
  lastSelection s' = lastRange rs (lastSelection initial) /\
  pauseSelectionTracking s' = false /\
  document s' = document initial /\
  currentUploads s' = currentUploads initial.
Proof.
  split; [reflexivity |].
  exact (lastSelection_follows_selection initial
           [Some {| index := 3; length_ := 0 |}; None] eq_refl).
Defined.

Lemma upload_does_not_touch_scrape :
  touched (UploadStart (KFile 7)) scraping <> Some (KUrl "http://a.test").
Proof. intros H. discriminate H. Defined.

Lemma other_keys_untouched_witness :
  reachable scraping /\
  touched (UploadStart (KFile 7)) scraping <> Some (KUrl "http://a.test") /\
  currentUploads (step (UploadStart (KFile 7)) scraping) !! KUrl "http://a.test" =
    currentUploads scraping !! KUrl "http://a.test" /\
  (forall id, currentUploads scraping !! KUrl "http://a.test" = Some id ->
              placeholder id (KUrl "http://a.test") ∈
                document (step (UploadStart (KFile 7)) scraping)).
Proof.
  split; [exact reachable_scraping |].
  split; [exact upload_does_not_touch_scrape |].
  exact (other_keys_untouched (UploadStart (KFile 7)) scraping
           (KUrl "http://a.test") reachable_scraping
           upload_does_not_touch_scrape).
Defined.

Lemma repeated_resolution_is_discarded_witness :
  resolutionKey (UploadSuccess (KFile 7) uploaded) = Some (KFile 7) /\
  resolutionKey (UploadFailure (KFile 7) (new_Error "Upload failed")) =
    Some (KFile 7) /\
  let s1 := step (UploadSuccess (KFile 7) uploaded) uploading in
  let e2 := UploadFailure (KFile 7) (new_Error "Upload failed") in
  currentUploads s1 !! KFile 7 = None /\
  document (step e2 s1) = document s1 /\
  currentUploads (step e2 s1) = currentUploads s1.
Proof.
  split; [reflexivity |]. split; [reflexivity |].
  exact (repeated_resolution_is_discarded
           (UploadSuccess (KFile 7) uploaded)
           (UploadFailure (KFile 7) (new_Error "Upload failed"))
           (KFile 7) uploading eq_refl eq_refl).
Defined.

Lemma upload_flow_inserts_at_caret_witness :
  reachable initial /\
  validSelection initial /\
  isNullish (KFile 7) = false /\
  let error := new_Error "Upload failed" in
  let node v := {| blot_id := 1; blot_value := v; deleteCallback := None |} in
  let succeeded :=
    run [UploadStart (KFile 7); UploadSuccess (KFile 7) uploaded] initial in
  let failed :=
    run [UploadStart (KFile 7); UploadFailure (KFile 7) error] initial in
  document succeeded =
    insertAt 0 (node (EmbedImage (upload_url uploaded) None)) [] /\
  currentUploads succeeded = delete (KFile 7) (currentUploads initial) /\
  document failed = insertAt 0 (node (EmbedError [error])) [] /\
  currentUploads failed = delete (KFile 7) (currentUploads initial).
Proof.
  split; [exact reachable_initial |]. split; [exact validSelection_initial |].
  split; [reflexivity |].
  exact (upload_flow_inserts_at_caret initial (KFile 7) uploaded
           (new_Error "Upload failed") reachable_initial
           validSelection_initial eq_refl).
Defined.

Lemma scrape_flow_inserts_at_caret_witness :
  reachable initial /\
  validSelection initial /\
  type sitePage = "site" /\ url sitePage = "http://a.test" /\
  type picture = "image" /\ url picture = "http://a.test" /\
  "Failed to load URL: x" <> "" /\
  let u := "http://a.test" in
  let node v := {| blot_id := 1; blot_value := v; deleteCallback := None |} in
  let after r := run [Scrape u; Settled u r] initial in
  document (after (Fulfilled sitePage)) =
    insertAt 0
      (node (EmbedLink u (name sitePage) (photoUrl sitePage) (body sitePage))) [] /\
  document (after (Fulfilled picture)) =
    insertAt 0 (node (EmbedImage (photoUrl picture) (Some (name picture)))) [] /\
  document (after (Rejected (rejection "Request failed" "Failed to load URL: x"))) =
    insertAt 0 (node (EmbedError [new_Error (shown "Failed to load URL: x")])) [] /\
  (forall r, r = Fulfilled sitePage \/ r = Fulfilled picture \/
             r = Rejected (rejection "Request failed" "Failed to load URL: x") ->
             currentUploads (after r) = delete (KUrl u) (currentUploads initial)).
Proof.
  split; [exact reachable_initial |]. split; [exact validSelection_initial |].
  split; [reflexivity |]. split; [reflexivity |].
  split; [reflexivity |]. split; [reflexivity |].
  split; [exact failed_to_load_not_empty |].
  exact (scrape_flow_inserts_at_caret initial "http://a.test" "Request failed"
           "Failed to load URL: x" sitePage picture reachable_initial
           validSelection_initial eq_refl eq_refl eq_refl eq_refl
           failed_to_load_not_empty).
Defined.

Lemma keyless_failure_leaves_placeholder_witness :
  reachable initial /\
  validSelection initial /\
  isNullish KNull = true /\
  let error := new_Error "Upload failed" in
  let s' := run [UploadStart KNull; UploadFailure KNull error] initial in
  currentUploads s' !! KNull = Some 0 /\
  placeholder 0 KNull ∈ document s' /\
  {| blot_id := 1; blot_value := EmbedError [error]; deleteCallback := None |}
    ∈ document s' /\
  length (document s') = 2.
Proof.
  split; [exact reachable_initial |]. split; [exact validSelection_initial |].
  split; [reflexivity |].
  exact (keyless_failure_leaves_placeholder initial KNull
           (new_Error "Upload failed") reachable_initial
           validSelection_initial eq_refl).
Defined.

Lemma placeholder_undo_restores_document_witness :
  reachable scraping /\
  validSelection scraping /\
  let s' := run [UploadStart (KFile 7); Removed 1] scraping in
  document s' = document scraping /\
  currentUploads s' = delete (KFile 7) (currentUploads scraping) /\
  errorLog s' = errorLog scraping.
Proof.
  split; [exact reachable_scraping |]. split; [apply le_0_n |].
  exact (placeholder_undo_restores_document scraping (KFile 7)
           reachable_scraping (le_0_n _)).
Defined.

Lemma scraping_entry : currentUploads scraping !! KUrl "http://a.test" = Some 0.
Proof. reflexivity. Defined.

Lemma registry_injective_witness :
  reachable scraping /\
  currentUploads scraping !! KUrl "http://a.test" = Some 0 /\
  KUrl "http://a.test" = KUrl "http://a.test".
Proof.
  split; [exact reachable_scraping |]. split; [exact scraping_entry |].
  exact (registry_injective scraping (KUrl "http://a.test")
           (KUrl "http://a.test") 0 reachable_scraping scraping_entry
           scraping_entry).
Defined.

Lemma reachable_uploading : reachable uploading.
Proof. by exists [UploadStart (KFile 7)]. Defined.

Lemma uploading_registered :
  isNullish (KFile 7) = true \/ is_Some (currentUploads uploading !! KFile 7).
Proof. right. by exists 0. Defined.

Lemma onImageUploadFailure_agrees_when_registered_witness :
  reachable uploading /\
  (isNullish (KFile 7) = true \/ is_Some (currentUploads uploading !! KFile 7)) /\
  onImageUploadFailure (KFile 7) (new_Error "Upload failed") uploading =
    createErrorEmbed (KFile 7) (new_Error "Upload failed") uploading.
Proof.
  split; [exact reachable_uploading |]. split; [exact uploading_registered |].
  exact (onImageUploadFailure_agrees_when_registered uploading (KFile 7)
           (new_Error "Upload failed") reachable_uploading uploading_registered).
Defined.

Lemma createVideoEmbed_resolves_response_url_witness :
  reachable scraping /\
  resolves (KUrl (url sitePage)) (EmbedVideo sitePage) scraping
    (createVideoEmbed sitePage scraping).
Proof.
  split; [exact reachable_scraping |].
  exact (createVideoEmbed_resolves_response_url scraping sitePage
           reachable_scraping).
Defined.

Lemma earlier_scrape_unknown_type_builds_video_witness :
  reachable scraping /\
  type unknownKind <> "site" /\
  type unknownKind <> "image" /\
  resolves (KUrl (url unknownKind)) (EmbedVideo unknownKind) scraping
    (Earlier.scrapeMedia_then unknownKind scraping) /\
  errorLog (snd (Earlier.scrapeMedia_then unknownKind scraping)) =
    errorLog scraping.
Proof.
  split; [exact reachable_scraping |].
  split; [exact unknownKind_not_site |]. split; [exact unknownKind_not_image |].
  exact (earlier_scrape_unknown_type_builds_video scraping unknownKind
           reachable_scraping unknownKind_not_site unknownKind_not_image).
Defined.
